(** * bookstore_manager: a shallow embedding of the sales ledger

    The program keeps three SQLite tables (member, book, sale) behind one
    connection and offers four menu operations.  The embedding follows the
    Python source function by function:

    - the tables are records and finite maps; [member] and [book] are keyed
      by their TEXT primary key, [sale] is the list of its rows together
      with the AUTOINCREMENT counter kept in [sqlite_sequence];
    - the connection is an explicit state: the committed database and the
      pending transaction, with [commit] and [rollback];
    - a call into sqlite3 can raise [sqlite3.Error]; the calls that do so are
      chosen by a fault plan carried in the state, one flag per call;
    - the console is a list of lines still to be read and the text written
      so far;
    - INTEGER columns and Python integers are mathematical integers: the
      64-bit range of SQLite's INTEGER is not part of the model;
    - the Python built-ins [int], [str.strip] and [re.fullmatch] are
      parameters of the interactive layer. *)

From Stdlib Require Import ZArith Ascii String List Lia.
From stdpp Require Import base option list sorting gmap strings pretty fin_maps.

Local Open Scope string_scope.
Local Open Scope list_scope.
Local Open Scope Z_scope.

(** ** Tables *)

Record Member := mkMember {
  mname : string;
  mphone : string;
  memail : option string
}.

Record Book := mkBook {
  btitle : string;
  bprice : Z;
  bstock : Z
}.

Record Sale := mkSale {
  sid : Z;
  sdate : string;
  mid : string;
  bid : string;
  sqty : Z;
  sdiscount : Z;
  stotal : Z
}.

Global Instance Member_eq_dec : EqDecision Member.
Proof. solve_decision. Defined.
Global Instance Book_eq_dec : EqDecision Book.
Proof. solve_decision. Defined.
Global Instance Sale_eq_dec : EqDecision Sale.
Proof. solve_decision. Defined.

(** [sale_seq] is the row of [sqlite_sequence] for the table [sale]: the
    largest [sid] ever handed out. *)
Record DB := mkDB {
  member : gmap string Member;
  book : gmap string Book;
  sale : list Sale;
  sale_seq : Z
}.

Definition empty_db : DB := mkDB ∅ ∅ [] 0.

(** ** SQL statements of the program *)

Module Sql.

(** Largest [sid] present in the table (0 for the empty table). *)
Definition max_sid (rows : list Sale) : Z :=
  foldr (λ s acc, Z.max (sid s) acc) 0 rows.

(** The key an AUTOINCREMENT insert hands out. *)
Definition next_sid (db : DB) : Z :=
  Z.max (sale_seq db) (max_sid (sale db)) + 1.

(** INSERT INTO sale(sdate,mid,bid,sqty,sdiscount,stotal) VALUES(?,?,?,?,?,?) *)
Definition insert_sale (d m b : string) (q disc tot : Z) (db : DB) : DB :=
  let k := next_sid db in
  mkDB (member db) (book db)
       (sale db ++ [mkSale k d m b q disc tot])
       k.

Definition dec_stock (q : Z) (b : Book) : Book :=
  mkBook (btitle b) (bprice b) (bstock b - q).

(** UPDATE book SET bstock=bstock-? WHERE bid=? *)
Definition update_book_stock (q : Z) (b : string) (db : DB) : DB :=
  mkDB (member db) (alter (dec_stock q) b (book db)) (sale db) (sale_seq db).

Definition set_discount (k disc tot : Z) (s : Sale) : Sale :=
  if decide (sid s = k)
  then mkSale (sid s) (sdate s) (mid s) (bid s) (sqty s) disc tot
  else s.

(** UPDATE sale SET sdiscount=?, stotal=? WHERE sid=? *)
Definition update_sale (disc tot k : Z) (db : DB) : DB :=
  mkDB (member db) (book db) (set_discount k disc tot <$> sale db) (sale_seq db).

(** DELETE FROM sale WHERE sid=? *)
Definition delete_sale (k : Z) (db : DB) : DB :=
  mkDB (member db) (book db) (filter (λ s, sid s ≠ k) (sale db)) (sale_seq db).

(** SELECT 1 FROM member WHERE mid=?  (first row, if any) *)
Definition select_member_1 (m : string) (db : DB) : option Z :=
  (λ _, 1) <$> member db !! m.

(** SELECT bprice,bstock FROM book WHERE bid=?  (first row, if any) *)
Definition select_book_price_stock (b : string) (db : DB) : option (Z * Z) :=
  (λ r, (bprice r, bstock r)) <$> book db !! b.

(** SELECT bprice FROM book WHERE bid=?  (first row, if any) *)
Definition select_bprice (b : string) (db : DB) : option Z :=
  bprice <$> book db !! b.

(** SELECT * FROM sale WHERE sid=?  (first row, if any) *)
Definition select_sale (k : Z) (db : DB) : option Sale :=
  head (filter (λ s, sid s = k) (sale db)).

(** ORDER BY on an integer key: insertion into an ordered list. *)
Fixpoint insert_by {A} (key : A → Z) (x : A) (l : list A) : list A :=
  match l with
  | [] => [x]
  | y :: l' => if decide (key x < key y) then x :: y :: l'
               else y :: insert_by key x l'
  end.

Definition order_by {A} (key : A → Z) (l : list A) : list A :=
  foldl (λ acc x, insert_by key x acc) [] l.

(** One row of the selection list of the update and delete menus. *)
Record Pick := mkPick { p_sid : Z; p_mname : string; p_sdate : string }.

Definition join_member (db : DB) (s : Sale) : option Pick :=
  m ← member db !! mid s; Some (mkPick (sid s) (mname m) (sdate s)).

(** SELECT s.sid, m.mname, s.sdate FROM sale s JOIN member m ON s.mid=m.mid
    ORDER BY s.sid *)
Definition select_picks (db : DB) : list Pick :=
  order_by p_sid (omap (join_member db) (sale db)).

(** One row of the sales report. *)
Record Line := mkLine {
  l_sid : Z; l_sdate : string; l_mname : string; l_btitle : string;
  l_bprice : Z; l_sqty : Z; l_sdiscount : Z; l_stotal : Z
}.

Definition join_member_book (db : DB) (s : Sale) : option Line :=
  m ← member db !! mid s;
  b ← book db !! bid s;
  Some (mkLine (sid s) (sdate s) (mname m) (btitle b) (bprice b)
               (sqty s) (sdiscount s) (stotal s)).

(** SELECT s.sid, s.sdate, m.mname, b.btitle, b.bprice, s.sqty, s.sdiscount,
    s.stotal FROM sale s JOIN member m ON s.mid = m.mid
    JOIN book b ON s.bid = b.bid ORDER BY s.sid *)
Definition select_report (db : DB) : list Line :=
  order_by l_sid (omap (join_member_book db) (sale db)).

End Sql.

(** ** Text formatting *)

Module Fmt.

(** [str(n)] and the plain [{n}] of an f-string. *)
Definition str (n : Z) : string := pretty n.

Fixpoint group3 (rev_digits : list ascii) : list ascii :=
  match rev_digits with
  | a :: b :: c :: rest =>
      match rest with
      | [] => [a; b; c]
      | _ :: _ => a :: b :: c :: ","%char :: group3 rest
      end
  | short => short
  end.

Definition commas_pos (digits : string) : string :=
  string_of_list_ascii (rev (group3 (rev (list_ascii_of_string digits)))).

(** The [{n:,}] of an f-string: thousands separated by commas. *)
Definition commas (n : Z) : string :=
  if decide (n < 0) then "-" +:+ commas_pos (pretty (Z.abs n))
  else commas_pos (pretty n).

(** A byte that does not continue a UTF-8 sequence starts a code point. *)
Definition starts_code_point (c : ascii) : bool :=
  let n := N_of_ascii c in negb ((128 <=? n)%N && (n <? 192)%N).

(** [len(s)] counts code points, the strings here being UTF-8. *)
Definition len (s : string) : nat :=
  length (filter (λ c, starts_code_point c = true) (list_ascii_of_string s)).

Definition spaces (n : nat) : string :=
  string_of_list_ascii (replicate n " "%char).

(** The [{s:<w}] of an f-string: left aligned, padded to width [w]. *)
Definition ljust (w : nat) (s : string) : string :=
  s +:+ spaces (w - len s).

End Fmt.

(** ** The connection, the console and the effects of the program *)

Record Conn := mkConn {
  disk : DB;           (* what is committed *)
  txn : option DB      (* the pending transaction, if one is open *)
}.

(** What a statement run on the connection sees. *)
Definition view (c : Conn) : DB := default (disk c) (txn c).

Definition idle (c : Conn) : Prop := txn c = None.

(** What was written to the terminal: a line by [print], or the prompt of an
    [input]. *)
Inductive Out :=
  | Line (s : string)
  | Prompt (s : string).

Record World := mkWorld {
  conn : Conn;
  stdin : list string;   (* lines not read yet *)
  stdout : list Out;     (* written so far, oldest first *)
  faults : list bool     (* one flag per coming sqlite3 call: does it raise? *)
}.

Inductive exn := EOFError | ValueError | TypeError | IndexError | SqliteError.

Global Instance exn_eq_dec : EqDecision exn.
Proof. solve_decision. Defined.

Inductive result (A : Type) :=
  | Ok (a : A)
  | Raise (e : exn)
  | OutOfFuel.
Arguments Ok {A} a.
Arguments Raise {A} e.
Arguments OutOfFuel {A}.

Definition M (A : Type) : Type := World → result A * World.

Global Instance M_ret : MRet M := λ A a w, (Ok a, w).

Global Instance M_bind : MBind M := λ A B f m w,
  match m w with
  | (Ok a, w') => f a w'
  | (Raise e, w') => (Raise e, w')
  | (OutOfFuel, w') => (OutOfFuel, w')
  end.

Global Instance M_fmap : FMap M := λ A B f m w,
  match m w with
  | (Ok a, w') => (Ok (f a), w')
  | (Raise e, w') => (Raise e, w')
  | (OutOfFuel, w') => (OutOfFuel, w')
  end.

Definition raise {A} (e : exn) : M A := λ w, (Raise e, w).

(** [try: body / except e:]; [None] says that the handler has to run. *)
Definition try_except {A} (e : exn) (body : M A) : M (option A) := λ w,
  match body w with
  | (Ok a, w') => (Ok (Some a), w')
  | (Raise e', w') => if decide (e' = e) then (Ok None, w') else (Raise e', w')
  | (OutOfFuel, w') => (OutOfFuel, w')
  end.

(** [while True: body]; the body answers [Some a] for [return a] and [None]
    to go round again. *)
Fixpoint while_true {A} (fuel : nat) (body : M (option A)) : M A :=
  match fuel with
  | O => λ w, (OutOfFuel, w)
  | S fuel' => r ← body; match r with
                         | Some a => mret a
                         | None => while_true fuel' body
                         end
  end.

(** The loops of the program read a line each time round, so one round more
    than there are lines is enough. *)
Definition loop {A} (body : M (option A)) : M A := λ w,
  while_true (S (length (stdin w))) body w.

Definition set_conn (c : Conn) (w : World) : World :=
  mkWorld c (stdin w) (stdout w) (faults w).

Definition write (o : Out) (w : World) : World :=
  mkWorld (conn w) (stdin w) (stdout w ++ [o]) (faults w).

Definition print (s : string) : M unit := λ w, (Ok tt, write (Line s) w).

Definition input (prompt : string) : M string := λ w,
  match stdin w with
  | [] => (Raise EOFError, write (Prompt prompt) w)
  | s :: rest =>
      (Ok s, mkWorld (conn w) rest (stdout w ++ [Prompt prompt]) (faults w))
  end.

(** Every call into sqlite3 takes the next flag of the fault plan. *)
Definition sqlite_call : M unit := λ w,
  match faults w with
  | [] => (Ok tt, w)
  | false :: fs => (Ok tt, mkWorld (conn w) (stdin w) (stdout w) fs)
  | true :: fs => (Raise SqliteError, mkWorld (conn w) (stdin w) (stdout w) fs)
  end.

Definition read_view {A} (q : DB → A) : M A := λ w, (Ok (q (view (conn w))), w).

Definition update_conn (f : Conn → Conn) : M unit :=
  λ w, (Ok tt, set_conn (f (conn w)) w).

(** [cur.execute] of a SELECT followed by its fetch. *)
Definition execute_select {A} (q : DB → A) : M A :=
  sqlite_call;; read_view q.

(** [cur.execute] of an INSERT, UPDATE or DELETE: the module opens a
    transaction when none is open, and the statement changes it. *)
Definition execute_write (f : DB → DB) : M unit :=
  sqlite_call;; update_conn (λ c, mkConn (disk c) (Some (f (view c)))).

(** [conn.commit()] *)
Definition commit : M unit :=
  sqlite_call;; update_conn (λ c, mkConn (view c) None).

(** [conn.rollback()] *)
Definition rollback : M unit :=
  update_conn (λ c, mkConn (disk c) None).

(** ** The store-level operation *)

Definition msg_invalid_ids : string := "錯誤：會員編號或書籍編號無效".

Definition msg_insufficient_stock (remaining : Z) : string :=
  "錯誤：書籍庫存不足 (剩餘 " +:+ Fmt.str remaining +:+ ")".

Definition msg_sale_added (total : Z) : string :=
  "銷售記錄已新增！(銷售總額: " +:+ Fmt.commas total +:+ ")".

Definition msg_db_error : string := "=> 發生資料庫操作錯誤".

Definition add_sale (sdate mid bid : string) (sqty sdiscount : Z)
  : M (bool * string) :=
  r ← try_except SqliteError (
        ok1 ← execute_select (Sql.select_member_1 mid);
        b ← execute_select (Sql.select_book_price_stock bid);
        match ok1, b with
        | Some _, Some (b_bprice, b_bstock) =>
            if decide (b_bstock < sqty)
            then mret (false, msg_insufficient_stock b_bstock)
            else
              let total := b_bprice * sqty - sdiscount in
              execute_write (Sql.insert_sale sdate mid bid sqty sdiscount total);;
              execute_write (Sql.update_book_stock sqty bid);;
              commit;;
              mret (true, msg_sale_added total)
        | _, _ => mret (false, msg_invalid_ids)
        end);
  match r with
  | Some answer => mret answer
  | None => rollback;; mret (false, msg_db_error)
  end.

(** ** Schema bootstrap *)

Definition seed_members : gmap string Member :=
  <["M001" := mkMember "Alice" "0912-345678" (Some "alice@example.com")]>
  (<["M002" := mkMember "Bob" "0923-456789" (Some "bob@example.com")]>
  (<["M003" := mkMember "Cathy" "0934-567890" (Some "cathy@example.com")]> ∅)).

Definition seed_books : gmap string Book :=
  <["B001" := mkBook "Python Programming" 600 50]>
  (<["B002" := mkBook "Data Science Basics" 800 30]>
  (<["B003" := mkBook "Machine Learning Guide" 1200 20]> ∅)).

Definition seed_sales (db : DB) : DB :=
  Sql.insert_sale "2024-01-19" "M002" "B003" 2 150 2250
  (Sql.insert_sale "2024-01-18" "M003" "B001" 1 0 600
  (Sql.insert_sale "2024-01-17" "M001" "B003" 1 0 1200
  (Sql.insert_sale "2024-01-16" "M002" "B002" 1 50 750
  (Sql.insert_sale "2024-01-15" "M001" "B001" 2 100 1100 db)))).

(** [cur.executescript]: commits what is pending, then runs the script
    outside any transaction; the script is taken as one statement. *)
Definition executescript (f : DB → DB) : M unit :=
  sqlite_call;; update_conn (λ c, mkConn (f (view c)) None).

Definition insert_seed_members (db : DB) : DB :=
  mkDB (seed_members ∪ member db) (book db) (sale db) (sale_seq db).

Definition insert_seed_books (db : DB) : DB :=
  mkDB (member db) (seed_books ∪ book db) (sale db) (sale_seq db).

(** CREATE TABLE IF NOT EXISTS has nothing to do in the model, where the
    three tables always exist; the seed rows go into each table that has no
    row. *)
Definition initialize_db : M unit :=
  executescript (λ db, db);;
  n_member ← execute_select (λ db, size (member db));
  (if decide (n_member = 0%nat) then executescript insert_seed_members
   else mret tt);;
  n_book ← execute_select (λ db, size (book db));
  (if decide (n_book = 0%nat) then executescript insert_seed_books
   else mret tt);;
  n_sale ← execute_select (λ db, length (sale db));
  (if decide (n_sale = 0%nat) then executescript seed_sales else mret tt);;
  commit.

(** A connection with nothing pending, a console with the given lines to
    read, and no sqlite3 failure ahead. *)
Definition quiet_world (db : DB) (lines : list string) : World :=
  mkWorld (mkConn db None) lines [] [].

(** The database of a first start. *)
Definition seeded : DB := view (conn (initialize_db (quiet_world empty_db [])).2).

(** ** The interactive layer *)

Definition nl : string := String "010"%char EmptyString.

Fixpoint for_each {A} (l : list A) (body : A → M unit) : M unit :=
  match l with
  | [] => mret tt
  | x :: l' => body x;; for_each l' body
  end.

(** [enumerate(l, start=1)] *)
Definition enumerate1 {A} (l : list A) : list (Z * A) :=
  zip (seqZ 1 (Z.of_nat (length l))) l.

Section Interactive.

(** The built-ins the interactive layer calls: [int(s)] ([None] when it
    raises ValueError), [s.strip()], and
    [bool(re.fullmatch(pattern, s))]. *)
Variable py_int : string → option Z.
Variable py_strip : string → string.
Variable re_fullmatch : string → string → bool.

Definition int_ (s : string) : M Z :=
  match py_int s with
  | Some v => mret v
  | None => raise ValueError
  end.

Definition is_valid_date (date_str : string) : bool :=
  re_fullmatch "\d{4}-\d{2}-\d{2}" date_str.

Definition get_valid_integer_input (prompt : string) : M (option Z) :=
  loop (
    s ← input prompt;
    if decide (s = "") then mret (Some None)
    else
      r ← try_except ValueError (int_ s);
      match r with
      | Some v => mret (Some (Some v))
      | None => print "=> 錯誤：請輸入有效的整數";; mret None
      end).

Definition get_valid_positive_integer_input (prompt : string) : M (option Z) :=
  loop (
    v ← get_valid_integer_input prompt;
    match v with
    | None => mret (Some v)
    | Some n =>
        if decide (n > 0) then mret (Some v)
        else print "=> 錯誤：數量必須為正整數";; mret None
    end).

Definition get_valid_non_negative_integer_input (prompt : string) : M (option Z) :=
  loop (
    v ← get_valid_integer_input prompt;
    match v with
    | None => mret (Some v)
    | Some n =>
        if decide (n >= 0) then mret (Some v)
        else print "=> 錯誤：折扣金額不能為負數";; mret None
    end).

Definition add_new_sale : M unit :=
  sdate ← input "請輸入銷售日期 (YYYY-MM-DD)：";
  if negb (is_valid_date sdate) then print "=> 錯誤：日期格式錯誤"
  else
    mid ← input "請輸入會員編號：";
    bid ← input "請輸入書籍編號：";
    sqty ← get_valid_positive_integer_input "請輸入購買數量：";
    match sqty with
    | None => mret tt
    | Some sqty =>
        sdiscount ← get_valid_non_negative_integer_input "請輸入折扣金額：";
        match sdiscount with
        | None => mret tt
        | Some sdiscount =>
            '(ok, msg) ← add_sale sdate mid bid sqty sdiscount;
            print ("=> " +:+ msg)
        end
    end.

Definition report_header : string :=
  "========================= 銷售報表 ==========================".

Definition dashes : string :=
  "--------------------------------------------------".

Definition print_sale (sale : Sql.Line) : M unit :=
  print ("銷售 #" +:+ Fmt.str (Sql.l_sid sale));;
  print ("銷售編號: " +:+ Fmt.str (Sql.l_sid sale));;
  print ("銷售日期: " +:+ Sql.l_sdate sale);;
  print ("會員姓名: " +:+ Sql.l_mname sale);;
  print ("書籍標題: " +:+ Sql.l_btitle sale);;
  print dashes;;
  print (Fmt.ljust 10 "單價" +:+ Fmt.ljust 8 "數量" +:+ Fmt.ljust 8 "折扣"
         +:+ Fmt.ljust 8 "小計");;
  print dashes;;
  print (Fmt.ljust 12 (Fmt.commas (Sql.l_bprice sale))
         +:+ Fmt.ljust 10 (Fmt.str (Sql.l_sqty sale))
         +:+ Fmt.ljust 10 (Fmt.commas (Sql.l_sdiscount sale))
         +:+ Fmt.ljust 10 (Fmt.commas (Sql.l_stotal sale)));;
  print dashes;;
  print ("銷售總額: " +:+ Fmt.commas (Sql.l_stotal sale));;
  print ("==================================================" +:+ nl).

Definition print_sale_report : M unit :=
  sales ← execute_select Sql.select_report;
  print report_header;;
  for_each sales print_sale.

Definition print_pick (entry : Z * Sql.Pick) : M unit :=
  let '(i, rec) := entry in
  print (Fmt.str i +:+ ". 銷售編號: " +:+ Fmt.str (Sql.p_sid rec)
         +:+ " - 會員: " +:+ Sql.p_mname rec
         +:+ " - 日期: " +:+ Sql.p_sdate rec).

Definition print_picks (sales : list Sql.Pick) : M unit :=
  print (nl +:+ "======== 銷售紀錄列表 ========");;
  for_each (enumerate1 sales) print_pick;;
  print "===============================".

Definition msg_invalid_number : string := "=> 錯誤：請輸入有效的數字".

(** The [try] block that reads the choice as a position of the list. *)
Definition parse_choice (choice : string) (n : nat) : M (option Z) :=
  try_except ValueError (
    idx ← int_ choice;
    if decide (idx < 1 ∨ idx > Z.of_nat n) then raise ValueError
    else mret idx).

(** [sales[idx-1]] for an [idx] that passed the range check. *)
Definition nth_pick (sales : list Sql.Pick) (idx : Z) : M Sql.Pick :=
  match sales !! Z.to_nat (idx - 1) with
  | Some rec => mret rec
  | None => raise IndexError
  end.

(** Subscripting the row a [fetchone] gave: None raises TypeError. *)
Definition subscript {A} (row : option A) : M A :=
  match row with
  | Some r => mret r
  | None => raise TypeError
  end.

(** The [try] statement that ends [update_sale_record]. *)
Definition update_txn (new_discount new_total sid : Z) : M unit :=
  r ← try_except SqliteError (
        execute_write (Sql.update_sale new_discount new_total sid);;
        commit;;
        print ("=> 銷售編號 " +:+ Fmt.str sid +:+ " 已更新！(銷售總額: "
               +:+ Fmt.commas new_total +:+ ")"));
  match r with
  | Some _ => mret tt
  | None => rollback;; print "=> 更新失敗，請稍後再試。"
  end.

(** The [try] statement that ends [delete_sale_record]. *)
Definition delete_txn (sid : Z) : M unit :=
  r ← try_except SqliteError (
        execute_write (Sql.delete_sale sid);;
        commit;;
        print ("=> 銷售編號 " +:+ Fmt.str sid +:+ " 已刪除"));
  match r with
  | Some _ => mret tt
  | None => rollback;; print "=> 刪除失敗，請稍後再試。"
  end.

Definition update_sale_record : M unit :=
  sales ← execute_select Sql.select_picks;
  match sales with
  | [] => print "=> 沒有任何銷售紀錄可供更新。"
  | _ :: _ =>
      print_picks sales;;
      choice ← py_strip <$> input "請選擇要更新的銷售編號 (輸入數字或按 Enter 取消): ";
      if decide (choice = "") then mret tt
      else
        idx ← parse_choice choice (length sales);
        match idx with
        | None => print msg_invalid_number
        | Some idx =>
            sid ← Sql.p_sid <$> nth_pick sales idx;
            sale ← execute_select (Sql.select_sale sid);
            new_discount ← get_valid_non_negative_integer_input "請輸入新的折扣金額：";
            match new_discount with
            | None => mret tt
            | Some new_discount =>
                sale_bid ← bid <$> subscript sale;
                row ← execute_select (Sql.select_bprice sale_bid);
                price ← subscript row;
                sale_sqty ← sqty <$> subscript sale;
                let new_total := price * sale_sqty - new_discount in
                update_txn new_discount new_total sid
            end
        end
  end.

Definition delete_sale_record : M unit :=
  sales ← execute_select Sql.select_picks;
  match sales with
  | [] => print "=> 沒有任何銷售紀錄可供刪除。"
  | _ :: _ =>
      print_picks sales;;
      choice ← py_strip <$> input "請選擇要刪除的銷售編號 (輸入數字或按 Enter 取消): ";
      if decide (choice = "") then mret tt
      else
        idx ← parse_choice choice (length sales);
        match idx with
        | None => print msg_invalid_number
        | Some idx =>
            sid ← Sql.p_sid <$> nth_pick sales idx;
            delete_txn sid
        end
  end.

End Interactive.

(** ** An instance of the built-ins, for plain ASCII text

    Enough of [int], [str.strip] and [re.fullmatch] to run the interactive
    layer on ASCII input: blanks are the six ASCII white-space characters,
    digits are 0 to 9, and a pattern is a sequence of [\d] and literal
    characters, each with an optional one-digit repeat count in braces. *)

Module Plain.

Definition is_space (c : ascii) : bool :=
  let n := N_of_ascii c in ((9 <=? n)%N && (n <=? 13)%N) || (n =? 32)%N.

Definition is_digit (c : ascii) : bool :=
  let n := N_of_ascii c in (48 <=? n)%N && (n <=? 57)%N.

Definition digit_value (c : ascii) : Z := Z.of_N (N_of_ascii c) - 48.

Fixpoint lstrip (l : list ascii) : list ascii :=
  match l with
  | c :: l' => if is_space c then lstrip l' else l
  | [] => []
  end.

Definition strip (s : string) : string :=
  string_of_list_ascii
    (rev (lstrip (rev (lstrip (list_ascii_of_string s))))).

Definition digits_value (l : list ascii) : option Z :=
  match l with
  | [] => None
  | _ :: _ =>
      if forallb is_digit l
      then Some (foldl (λ acc c, 10 * acc + digit_value c) 0 l)
      else None
  end.

Definition int (s : string) : option Z :=
  match list_ascii_of_string (strip s) with
  | "-"%char :: l => Z.opp <$> digits_value l
  | "+"%char :: l => digits_value l
  | l => digits_value l
  end.

Inductive atom := Digit | Lit (c : ascii).

Definition matches (a : atom) (c : ascii) : bool :=
  match a with
  | Digit => is_digit c
  | Lit c' => if decide (c = c') then true else false
  end.

(** The atoms of a pattern, repeats unfolded. *)
Fixpoint atoms (fuel : nat) (pat : list ascii) : list atom :=
  match fuel with
  | O => []
  | S fuel' =>
      let '(a, rest) :=
        match pat with
        | "\"%char :: "d"%char :: rest => (Some Digit, rest)
        | c :: rest => (Some (Lit c), rest)
        | [] => (None, [])
        end in
      match a with
      | None => []
      | Some a =>
          match rest with
          | "{"%char :: n :: "}"%char :: rest' =>
              replicate (Z.to_nat (digit_value n)) a ++ atoms fuel' rest'
          | _ => a :: atoms fuel' rest
          end
      end
  end.

Fixpoint match_all (p : list atom) (s : list ascii) : bool :=
  match p, s with
  | [], [] => true
  | a :: p', c :: s' => matches a c && match_all p' s'
  | _, _ => false
  end.

Definition fullmatch (pattern s : string) : bool :=
  let pat := list_ascii_of_string pattern in
  match_all (atoms (S (length pat)) pat) (list_ascii_of_string s).

End Plain.


(** ** The menu *)

(** [connect_db]: a new connection to the database file sees what is
    committed and has nothing pending. *)
Definition connect_db : M unit := update_conn (λ c, mkConn (disk c) None).

(** [conn.close()]: what is pending and not committed is dropped. *)
Definition close : M unit := update_conn (λ c, mkConn (disk c) None).

Definition print_menu : M unit :=
  print (nl +:+ "***************選單***************");;
  print "1. 新增銷售記錄";;
  print "2. 顯示銷售報表";;
  print "3. 更新銷售記錄";;
  print "4. 刪除銷售記錄";;
  print "5. 離開";;
  print "**********************************".

Definition msg_goodbye : string := "=> 感謝使用，再見！".

Definition msg_invalid_option : string := "=> 請輸入有效的選項（1-5）".

Section Menu.

Variable py_int : string → option Z.
Variable py_strip : string → string.
Variable re_fullmatch : string → string → bool.

(** One round of the [while True] of [main]; [Some tt] is its [break]. *)
Definition menu_round : M (option unit) :=
  print_menu;;
  choice ← py_strip <$> input "請選擇操作項目(Enter 離開)：";
  if decide (choice ∈ [""; "5"]) then print msg_goodbye;; mret (Some tt)
  else if decide (choice = "1") then
    add_new_sale py_int re_fullmatch;; mret None
  else if decide (choice = "2") then
    print_sale_report;; mret None
  else if decide (choice = "3") then
    update_sale_record py_int py_strip;; mret None
  else if decide (choice = "4") then
    delete_sale_record py_int py_strip;; mret None
  else print msg_invalid_option;; mret None.

Definition main : M unit :=
  connect_db;;
  initialize_db;;
  loop menu_round;;
  close.

End Menu.
(** * Vocabulary of the properties *)

(** No sqlite3 call ahead raises. *)
Definition calm (w : World) : Prop := Forall (λ b, b = false) (faults w).

(** [leads I J m]: started on a connection in [I], the computation [m] ends,
    whatever it answers or raises, on a connection in [J]. *)
Definition leads {A} (I J : Conn → Prop) (m : M A) : Prop :=
  ∀ w, I (conn w) → J (conn (m w).2).

Abbreviation keeps I m := (leads I I m).

(** The primary key of [sale]: no two rows share a [sid]. *)
Definition keyed (db : DB) : Prop := NoDup (sid <$> sale db).

(** Every sale names a member and a book that exist. *)
Definition referential (db : DB) : Prop :=
  Forall (λ s, is_Some (member db !! mid s) ∧ is_Some (book db !! bid s))
         (sale db).

Definition wf_db (db : DB) : Prop := keyed db ∧ referential db.

Global Instance wf_db_dec db : Decision (wf_db db).
Proof. unfold wf_db, keyed, referential. apply _. Defined.

(** No book has a negative stock. *)
Definition stock_ok (db : DB) : Prop :=
  map_Forall (λ _ b, 0 ≤ bstock b) (book db).

Global Instance stock_ok_dec db : Decision (stock_ok db).
Proof. unfold stock_ok. apply _. Defined.

(** The specification names four kinds of error; the program has only
    messages.  [error_kind_of] reads the kind off a message of the program,
    following the list of the specification: a bad date, a text that is not
    a number of the wanted range, and a choice outside the list are
    InvalidInput; an unknown member or book is NotFound; a stock too low is
    InsufficientStock; a failed sqlite3 call is StorageFailure. *)
Inductive error_kind := InvalidInput | NotFound | InsufficientStock | StorageFailure.

Definition error_kind_of (msg : string) : option error_kind :=
  if String.prefix "錯誤：書籍庫存不足" msg then Some InsufficientStock
  else if decide (msg = msg_invalid_ids) then Some NotFound
  else if decide (msg ∈ [msg_db_error; "=> 更新失敗，請稍後再試。";
                         "=> 刪除失敗，請稍後再試。"]) then Some StorageFailure
  else if decide (msg ∈ [msg_invalid_number; "=> 錯誤：請輸入有效的整數";
                         "=> 錯誤：數量必須為正整數"; "=> 錯誤：折扣金額不能為負數";
                         "=> 錯誤：日期格式錯誤"]) then Some InvalidInput
  else None.

(** One of the next [n] sqlite3 calls raises. *)
Definition fault_within (n : nat) (w : World) : Prop := true ∈ take n (faults w).

Global Instance fault_within_dec n w : Decision (fault_within n w).
Proof. unfold fault_within. apply _. Defined.

(** The two writes of a sale, as one change of the database. *)
Definition sale_writes (sdate m b : string) (q disc total : Z) (db : DB) : DB :=
  Sql.update_book_stock q b (Sql.insert_sale sdate m b q disc total db).

(** All or nothing: nothing is left pending, and what is committed is either
    what was committed before or that with the whole change [f] applied. *)
Definition all_or_nothing (before : Conn) (f : DB → DB) (after : Conn) : Prop :=
  idle after ∧ (disk after = disk before ∨ disk after = f (disk before)).

(** The twelve lines [print_sale] writes for a row of the report. *)
Definition sale_lines (sale : Sql.Line) : list string :=
  [ "銷售 #" +:+ Fmt.str (Sql.l_sid sale);
    "銷售編號: " +:+ Fmt.str (Sql.l_sid sale);
    "銷售日期: " +:+ Sql.l_sdate sale;
    "會員姓名: " +:+ Sql.l_mname sale;
    "書籍標題: " +:+ Sql.l_btitle sale;
    dashes;
    Fmt.ljust 10 "單價" +:+ Fmt.ljust 8 "數量" +:+ Fmt.ljust 8 "折扣"
      +:+ Fmt.ljust 8 "小計";
    dashes;
    Fmt.ljust 12 (Fmt.commas (Sql.l_bprice sale))
      +:+ Fmt.ljust 10 (Fmt.str (Sql.l_sqty sale))
      +:+ Fmt.ljust 10 (Fmt.commas (Sql.l_sdiscount sale))
      +:+ Fmt.ljust 10 (Fmt.commas (Sql.l_stotal sale));
    dashes;
    "銷售總額: " +:+ Fmt.commas (Sql.l_stotal sale);
    "==================================================" +:+ nl ].

(** The row of the report for a sale, its member and its book. *)
Definition report_line (s : Sale) (m : Member) (b : Book) : Sql.Line :=
  Sql.mkLine (sid s) (sdate s) (mname m) (btitle b) (bprice b)
             (sqty s) (sdiscount s) (stotal s).

(** [bounded m]: the computation [m] never runs out of the rounds its loops
    are given, and leaves no more lines to read than it found.
    [reading m]: moreover, when it answers it has read a line. *)
Definition bounded {A} (m : M A) : Prop :=
  ∀ w, (m w).1 ≠ OutOfFuel ∧ (length (stdin (m w).2) ≤ length (stdin w))%nat.

Definition reading {A} (m : M A) : Prop :=
  bounded m ∧
  ∀ w a, (m w).1 = Ok a → (length (stdin (m w).2) < length (stdin w))%nat.

(** The AUTOINCREMENT counter is not negative and is at or above every key
    in the table. *)
Definition seq_ok (db : DB) : Prop :=
  0 ≤ sale_seq db ∧ Forall (λ s, sid s ≤ sale_seq db) (sale db).

Global Instance seq_ok_dec db : Decision (seq_ok db).
Proof. unfold seq_ok. apply _. Defined.

(** A table that is empty, or holds at least the keys of its seed rows. *)
Definition seeds_or_empty {V} (seed table : gmap string V) : Prop :=
  table = ∅ ∨ dom seed ⊆ dom table.

(** What every state of the store satisfies that the program can reach from
    an empty database file: the primary key and the references of the
    sales, no negative stock, the counter above the keys, and tables of
    members and books that are empty or hold the seed keys. *)
Definition store_ok (db : DB) : Prop :=
  wf_db db ∧ stock_ok db ∧ seq_ok db ∧
  seeds_or_empty seed_members (member db) ∧
  seeds_or_empty seed_books (book db).

(** The same of a connection between two operations: nothing is pending. *)
Definition conn_ok (c : Conn) : Prop := idle c ∧ store_ok (disk c).

Global Instance store_ok_dec db : Decision (store_ok db).
Proof. unfold store_ok, seeds_or_empty. apply _. Defined.

(** [triple I m Q E]: started on a connection in [I], the computation [m]
    either answers [a] on a connection in [Q a], or raises, or runs out of
    rounds, on a connection in [E]. *)
Definition triple {A} (I : Conn → Prop) (m : M A)
    (Q : A → Conn → Prop) (E : Conn → Prop) : Prop :=
  ∀ w, I (conn w) →
       match (m w).1 with
       | Ok a => Q a (conn (m w).2)
       | _ => E (conn (m w).2)
       end.

(** What [initialize_db] commits when no sqlite3 call fails: each table that
    has no row gets its seed rows, members first, then books, then sales. *)
Definition bootstrap (db : DB) : DB :=
  let db1 := if decide (size (member db) = 0%nat)
             then insert_seed_members db else db in
  let db2 := if decide (size (book db1) = 0%nat)
             then insert_seed_books db1 else db1 in
  if decide (length (sale db2) = 0%nat) then seed_sales db2 else db2.

Definition err_not_integer : string := "=> 錯誤：請輸入有效的整數".

Definition err_not_positive : string := "=> 錯誤：數量必須為正整數".

Definition err_negative : string := "=> 錯誤：折扣金額不能為負數".

(** What the terminal shows for lines that were refused: for each the
    prompt and the error line. *)
Definition refused (prompt err : string) (bad : list string) : list Out :=
  bad ≫= λ _, [Prompt prompt; Line err].

(** A change of the committed store that is the sale of [q] copies of a book
    in stock to an existing member. *)
Definition sold (sdate m b : string) (q disc : Z) (before after : DB) : Prop :=
  ∃ bk, is_Some (member before !! m) ∧ book before !! b = Some bk ∧
        q ≤ bstock bk ∧
        after = sale_writes sdate m b q disc (bprice bk * q - disc) before.

Definition msg_nothing_to_update : string := "=> 沒有任何銷售紀錄可供更新。".
Definition msg_nothing_to_delete : string := "=> 沒有任何銷售紀錄可供刪除。".
Definition prompt_update : string :=
  "請選擇要更新的銷售編號 (輸入數字或按 Enter 取消): ".
Definition prompt_delete : string :=
  "請選擇要刪除的銷售編號 (輸入數字或按 Enter 取消): ".
Definition prompt_discount : string := "請輸入新的折扣金額：".

(** [spends m]: of the fault plan the computation [m] only takes flags from
    the front. *)
Definition spends {A} (m : M A) : Prop :=
  ∀ w, ∃ n, faults (m w).2 = drop n (faults w).

(** What a committed update is: a sale of the list gets a discount of zero or
    more, and as total the price of its book times its quantity less that
    discount. *)
Definition repriced (before after : DB) : Prop :=
  ∃ p s bk nd,
    p ∈ Sql.select_picks before ∧
    Sql.select_sale (Sql.p_sid p) before = Some s ∧
    book before !! bid s = Some bk ∧ nd >= 0 ∧
    after = Sql.update_sale nd (bprice bk * sqty s - nd) (Sql.p_sid p) before.

(** What a committed deletion is: the rows of a sale of the list go. *)
Definition removed (before after : DB) : Prop :=
  ∃ p, p ∈ Sql.select_picks before ∧ after = Sql.delete_sale (Sql.p_sid p) before.

(** Every sale carries the total of its book's price, its quantity and its
    discount. *)
Definition priced (db : DB) : Prop :=
  Forall (λ s, (λ bk, bprice bk * sqty s - sdiscount s) <$> book db !! bid s
               = Some (stotal s)) (sale db).

Global Instance priced_dec db : Decision (priced db).
Proof. unfold priced. apply _. Defined.

(** Two rows that differ by discount and total at most. *)
Definition same_but_discount (s s' : Sale) : Prop :=
  sid s' = sid s ∧ sdate s' = sdate s ∧ mid s' = mid s ∧ bid s' = bid s ∧
  sqty s' = sqty s.
(** * Running the program symbolically *)

Ltac run :=
  cbv beta iota delta
    [mbind M_bind mret M_ret fmap M_fmap raise try_except
     execute_select execute_write commit rollback read_view update_conn
     set_conn write print input subscript int_ fst snd].

Lemma sqlite_call_calm c i o fs :
  Forall (λ b, b = false) fs →
  sqlite_call (mkWorld c i o fs) = (Ok tt, mkWorld c i o (tail fs)).
Proof.
  intros H. destruct H as [|b fs' -> H]; reflexivity.
Qed.

Lemma calm_tail fs :
  Forall (λ b : bool, b = false) fs → Forall (λ b : bool, b = false) (tail fs).
Proof. intros H. destruct H; simpl; auto. Qed.

Lemma add_sale_commits (sdate m b : string) (q disc : Z) (w : World)
  (mem : Member) (bk : Book) :
  calm w →
  member (view (conn w)) !! m = Some mem →
  book (view (conn w)) !! b = Some bk →
  q ≤ bstock bk →
  let total := bprice bk * q - disc in
  let r := add_sale sdate m b q disc w in
  r.1 = Ok (true, msg_sale_added total) ∧
  conn r.2 = mkConn (Sql.update_book_stock q b
                       (Sql.insert_sale sdate m b q disc total (view (conn w))))
                    None ∧
  stdin r.2 = stdin w ∧ stdout r.2 = stdout w.
Proof.
  destruct w as [c i o fs]. unfold calm. simpl. intros Hfs Hm Hb Hq.
  unfold add_sale. run.
  rewrite sqlite_call_calm by done. simpl.
  rewrite sqlite_call_calm by auto using calm_tail. simpl.
  unfold Sql.select_member_1, Sql.select_book_price_stock.
  rewrite Hm, Hb. simpl.
  destruct (decide (bstock bk < q)) as [|_]; [lia|].
  rewrite sqlite_call_calm by auto using calm_tail. simpl.
  rewrite sqlite_call_calm by auto using calm_tail. simpl.
  rewrite sqlite_call_calm by auto using calm_tail. simpl.
  done.
Qed.

(** Case analysis on the flag the next sqlite3 call takes. *)
Ltac next_call :=
  match goal with
  | |- context [sqlite_call (mkWorld _ _ _ ?fs)] =>
      is_var fs;
      let b := fresh "b" in
      destruct fs as [|b ?]; [|destruct b]
  end.

(** Decide which handler an exception meets. *)
Ltac handler :=
  repeat match goal with
  | |- context [decide (?a = ?b :> exn)] =>
      destruct (decide (a = b :> exn)); [try discriminate | try congruence]
  end.

Ltac exec :=
  repeat (cbn [sqlite_call faults conn stdin stdout]; handler; try next_call);
  cbn [sqlite_call faults conn stdin stdout].

Ltac finish := cbn; handler; cbn; eauto 10.

(** What a call of [add_sale] can do, whatever the fault plan: it answers,
    and either nothing pending is left and nothing was committed, or the
    request was valid and both writes are committed. *)
Lemma add_sale_cases (sdate m b : string) (q disc : Z) (w : World) :
  let db := view (conn w) in
  let r := add_sale sdate m b q disc w in
  stdin r.2 = stdin w ∧ stdout r.2 = stdout w ∧
  ((∃ msg, r.1 = Ok (false, msg) ∧
           (conn r.2 = conn w ∨ conn r.2 = mkConn (disk (conn w)) None))
   ∨ (∃ mem bk,
        member db !! m = Some mem ∧ book db !! b = Some bk ∧ q ≤ bstock bk ∧
        r.1 = Ok (true, msg_sale_added (bprice bk * q - disc)) ∧
        conn r.2 = mkConn (Sql.update_book_stock q b
                     (Sql.insert_sale sdate m b q disc (bprice bk * q - disc) db))
                   None)).
Proof.
  destruct w as [c i o fs]. cbn [conn stdin stdout].
  unfold add_sale. run.
  unfold Sql.select_member_1, Sql.select_book_price_stock.
  exec; try (finish; fail).
  all: destruct (member (view c) !! m) as [mem|] eqn:Hm;
    destruct (book (view c) !! b) as [bk|] eqn:Hb; cbn [fmap option_fmap option_map];
    try (finish; fail);
    destruct (decide (bstock bk < q)); try (finish; fail).
  all: exec; try (finish; fail).
  all: cbn; split; [done|split; [done|]]; right; exists mem, bk;
    repeat split; auto; lia.
Qed.

(** ** What a computation does to the connection

    The rules of [leads], one per effect of the program. *)

Section Leads.

Context (I J : Conn → Prop).

Lemma leads_weaken {A} (m : M A) : keeps I m → (∀ c, I c → J c) → leads I J m.
Proof. unfold leads. auto. Qed.

Lemma leads_ret {A} (a : A) : keeps I (mret a : M A).
Proof. intros w H. exact H. Qed.

Lemma leads_raise {A} (e : exn) : keeps I (raise e : M A).
Proof. intros w H. exact H. Qed.

Lemma leads_print s : keeps I (print s).
Proof. intros w H. exact H. Qed.

Lemma leads_input s : keeps I (input s).
Proof. intros [c [|l i] o fs] H; exact H. Qed.

Lemma leads_sqlite_call : keeps I sqlite_call.
Proof. intros [c i o [|[] fs]] H; exact H. Qed.

Lemma leads_bind {A B} (m : M A) (f : A → M B) :
  keeps I m → (∀ a, leads I J (f a)) → (∀ c, I c → J c) →
  leads I J (m ≫= f).
Proof.
  intros Hm Hf HIJ w Hw. specialize (Hm w Hw).
  unfold mbind, M_bind. destruct (m w) as [[a|e|] w']; simpl in *; auto.
  apply Hf, Hm.
Qed.

Lemma leads_fmap {A B} (g : A → B) (m : M A) : leads I J m → leads I J (g <$> m).
Proof.
  intros Hm w Hw. specialize (Hm w Hw).
  unfold fmap, M_fmap. destruct (m w) as [[a|e|] w']; exact Hm.
Qed.

Lemma leads_try_except {A} (e : exn) (m : M A) :
  leads I J m → leads I J (try_except e m).
Proof.
  intros Hm w Hw. specialize (Hm w Hw).
  unfold try_except. destruct (m w) as [[a|e'|] w']; simpl in *; auto.
  destruct (decide (e' = e)); exact Hm.
Qed.

Lemma leads_select {A} (q : DB → A) : keeps I (execute_select q).
Proof. intros [c i o [|[] fs]] H; exact H. Qed.

Lemma leads_write (f : DB → DB) :
  (∀ c, I c → I (mkConn (disk c) (Some (f (view c))))) →
  keeps I (execute_write f).
Proof. intros Hf [c i o [|[] fs]] H; run; cbn in *; auto. Qed.

Lemma leads_commit :
  (∀ c, I c → I (mkConn (view c) None)) → keeps I commit.
Proof. intros Hf [c i o [|[] fs]] H; run; cbn in *; auto. Qed.

Lemma leads_rollback :
  (∀ c, I c → I (mkConn (disk c) None)) → keeps I rollback.
Proof. intros Hf w H. run. cbn. auto. Qed.

End Leads.

Lemma keeps_bind I {A B} (m : M A) (f : A → M B) :
  keeps I m → (∀ a, keeps I (f a)) → keeps I (m ≫= f).
Proof. intros. apply leads_bind; auto. Qed.

Lemma keeps_while_true I {A} (body : M (option A)) fuel :
  keeps I body → keeps I (while_true fuel body).
Proof.
  intros Hb. induction fuel as [|n IH]; simpl.
  - intros w H. exact H.
  - apply keeps_bind; [exact Hb|]. intros [a|]; [apply leads_ret | exact IH].
Qed.

Lemma keeps_loop I {A} (body : M (option A)) : keeps I body → keeps I (loop body).
Proof. intros Hb w. unfold loop. apply keeps_while_true, Hb. Qed.

Lemma keeps_for_each I {A} (l : list A) (body : A → M unit) :
  (∀ x, keeps I (body x)) → keeps I (for_each l body).
Proof.
  intros Hb. induction l as [|x l IH]; simpl.
  - apply leads_ret.
  - apply keeps_bind; [apply Hb | intros _; exact IH].
Qed.

Create HintDb keeps discriminated.
#[export] Hint Resolve leads_ret leads_raise leads_print leads_input
  leads_sqlite_call leads_select leads_fmap leads_try_except
  keeps_bind keeps_loop keeps_for_each : keeps.

(** Breaks a computation of the interactive layer into its statements. *)
Ltac keeps_step :=
  match goal with
  | |- leads _ _ (match ?x with _ => _ end) => destruct x
  | |- leads _ _ (let '(_, _) := ?x in _) => destruct x
  | |- leads ?I ?I (_ ≫= _) => apply keeps_bind; [|intros ?]
  | |- leads ?I ?I (_ <$> _) => apply leads_fmap
  | |- leads ?I ?I (try_except _ _) => apply leads_try_except
  | |- leads ?I ?I (loop _) => apply keeps_loop
  | |- leads ?I ?I (for_each _ _) => apply keeps_for_each; intros ?
  | |- leads ?I ?I (mret _) => apply leads_ret
  | |- leads ?I ?I (raise _) => apply leads_raise
  | |- leads ?I ?I (print _) => apply leads_print
  | |- leads ?I ?I (input _) => apply leads_input
  | |- leads ?I ?I (execute_select _) => apply leads_select
  end.

Ltac keeps_tac := repeat keeps_step.

Section KeepsInteractive.

Variable py_int : string → option Z.
Variable py_strip : string → string.
Variable re_fullmatch : string → string → bool.
Variable I : Conn → Prop.

Lemma keeps_int_ s : keeps I (int_ py_int s).
Proof. unfold int_. keeps_tac. Qed.

Lemma keeps_get_valid_integer_input prompt :
  keeps I (get_valid_integer_input py_int prompt).
Proof. unfold get_valid_integer_input. keeps_tac. apply keeps_int_. Qed.

Lemma keeps_get_valid_positive_integer_input prompt :
  keeps I (get_valid_positive_integer_input py_int prompt).
Proof.
  unfold get_valid_positive_integer_input. keeps_tac.
  apply keeps_get_valid_integer_input.
Qed.

Lemma keeps_get_valid_non_negative_integer_input prompt :
  keeps I (get_valid_non_negative_integer_input py_int prompt).
Proof.
  unfold get_valid_non_negative_integer_input. keeps_tac.
  apply keeps_get_valid_integer_input.
Qed.

Lemma keeps_print_picks sales : keeps I (print_picks sales).
Proof. unfold print_picks, print_pick. keeps_tac. Qed.

Lemma keeps_parse_choice choice n : keeps I (parse_choice py_int choice n).
Proof. unfold parse_choice. keeps_tac. apply keeps_int_. Qed.

Lemma keeps_nth_pick sales idx : keeps I (nth_pick sales idx).
Proof. unfold nth_pick. keeps_tac. Qed.

Lemma keeps_subscript {A} (row : option A) : keeps I (subscript row).
Proof. unfold subscript. keeps_tac. Qed.

(** Listing the sales never touches the connection. *)
Lemma keeps_print_sale_report : keeps I print_sale_report.
Proof. unfold print_sale_report, print_sale. keeps_tac. Qed.

End KeepsInteractive.

(** ** The SQL statements *)

Module SqlFacts.
Import Sql.

Section OrderBy.

Context {A : Type} (key : A → Z).

Lemma insert_by_perm (x : A) (l : list A) : insert_by key x l ≡ₚ x :: l.
Proof.
  induction l as [|y l IH]; simpl; [done|].
  case_decide; [done|]. rewrite IH. apply Permutation_swap.
Qed.

Lemma order_by_snoc (l : list A) (x : A) :
  order_by key (l ++ [x]) = insert_by key x (order_by key l).
Proof. unfold order_by. by rewrite foldl_app. Qed.

Lemma order_by_perm (l : list A) : order_by key l ≡ₚ l.
Proof.
  induction l as [|x l IH] using rev_ind; [done|].
  rewrite order_by_snoc, insert_by_perm, IH.
  by rewrite Permutation_cons_append.
Qed.

Lemma elem_of_order_by (x : A) (l : list A) : x ∈ order_by key l ↔ x ∈ l.
Proof. by rewrite order_by_perm. Qed.

Lemma length_order_by (l : list A) : length (order_by key l) = length l.
Proof. by rewrite order_by_perm. Qed.

Lemma insert_by_sorted (x : A) (l : list A) :
  StronglySorted (λ a b, key a ≤ key b) l →
  StronglySorted (λ a b, key a ≤ key b) (insert_by key x l).
Proof.
  induction 1 as [|y l Hl IH Hy]; simpl.
  - by repeat constructor.
  - case_decide.
    + constructor; [by constructor|]. constructor; [lia|].
      eapply Forall_impl; [exact Hy|]. simpl. intros; lia.
    + constructor; [exact IH|].
      rewrite insert_by_perm. constructor; [lia | exact Hy].
Qed.

Lemma order_by_sorted (l : list A) :
  StronglySorted (λ a b, key a ≤ key b) (order_by key l).
Proof.
  induction l as [|x l IH] using rev_ind; [constructor|].
  rewrite order_by_snoc. by apply insert_by_sorted.
Qed.

(** A key above all the others goes last. *)
Lemma insert_by_last (x : A) (l : list A) :
  Forall (λ y, key y ≤ key x) l → insert_by key x l = l ++ [x].
Proof.
  induction 1 as [|y l Hy Hl IH]; simpl; [done|].
  case_decide; [lia|]. by rewrite IH.
Qed.

End OrderBy.

Lemma sid_le_max (s : Sale) (rows : list Sale) : s ∈ rows → sid s ≤ max_sid rows.
Proof.
  induction 1 as [s rows|s s' rows Hs IH]; simpl; [lia|].
  etrans; [exact IH|]. lia.
Qed.

Lemma sid_lt_next (s : Sale) (db : DB) : s ∈ sale db → sid s < next_sid db.
Proof. intros Hs%sid_le_max. unfold next_sid. lia. Qed.

(** Under the primary key a row is known by its [sid]. *)
Lemma keyed_inj (rows : list Sale) (x y : Sale) :
  NoDup (sid <$> rows) → x ∈ rows → y ∈ rows → sid x = sid y → x = y.
Proof.
  induction rows as [|z rows IH]; [by intros _ ?%elem_of_nil|].
  rewrite fmap_cons, NoDup_cons, !elem_of_cons.
  intros [Hz Hnd] [->|Hx] [->|Hy] Heq; auto.
  - destruct Hz. rewrite Heq. by apply list_elem_of_fmap_2.
  - destruct Hz. rewrite <-Heq. by apply list_elem_of_fmap_2.
Qed.

Lemma select_sale_keyed (db : DB) (s : Sale) :
  keyed db → s ∈ sale db → select_sale (sid s) db = Some s.
Proof.
  unfold keyed, select_sale. generalize (sale db) as rows.
  induction rows as [|z rows IH]; [by intros _ ?%elem_of_nil|].
  rewrite fmap_cons, NoDup_cons, elem_of_cons.
  intros [Hz Hnd] Hs. rewrite filter_cons. case_decide as Hk.
  - simpl. f_equal. destruct Hs as [->|Hs]; [done|].
    destruct Hz. rewrite Hk. by apply list_elem_of_fmap_2.
  - destruct Hs as [->|Hs]; [done|]. by apply IH.
Qed.

Lemma select_sale_None (db : DB) (k : Z) :
  select_sale k db = None ↔ k ∉ sid <$> sale db.
Proof.
  unfold select_sale. generalize (sale db) as rows.
  induction rows as [|z rows IH]; simpl.
  - split; [intros _ ?%elem_of_nil; done | done].
  - rewrite filter_cons, not_elem_of_cons. case_decide as Hk; simpl.
    + split; [done | intros [? _]; congruence].
    + rewrite IH. split; [by split | by intros [_ ?]].
Qed.

Lemma update_sale_keyed_rows (rows : list Sale) (s : Sale) (disc tot : Z) :
  NoDup (sid <$> rows) → s ∈ rows →
  set_discount (sid s) disc tot <$> rows =
  (λ x, if decide (x = s)
        then mkSale (sid s) (sdate s) (mid s) (bid s) (sqty s) disc tot
        else x) <$> rows.
Proof.
  intros Hnd Hs. apply list_fmap_ext. intros i x Hx.
  apply list_elem_of_lookup_2 in Hx. unfold set_discount.
  destruct (decide (sid x = sid s)) as [Heq|Hne].
  - assert (x = s) as -> by eauto using keyed_inj. by rewrite decide_True.
  - rewrite decide_False; [done|]. by intros ->.
Qed.

Lemma filter_ext_elem {A} (P Q : A → Prop)
    `{!∀ x, Decision (P x), !∀ x, Decision (Q x)} (l : list A) :
  (∀ x, x ∈ l → P x ↔ Q x) → filter P l = filter Q l.
Proof.
  induction l as [|y l IH]; intros HPQ; [done|].
  rewrite !filter_cons.
  rewrite IH by (intros; apply HPQ; by right).
  destruct (HPQ y) as [H1 H2]; [by left|].
  repeat case_decide; tauto.
Qed.

Lemma delete_sale_keyed_rows (rows : list Sale) (s : Sale) :
  NoDup (sid <$> rows) → s ∈ rows →
  filter (λ x, sid x ≠ sid s) rows = filter (λ x, x ≠ s) rows.
Proof.
  intros Hnd Hs. apply filter_ext_elem. intros x Hx. split.
  - by intros Hne ->.
  - intros Hne Heq. apply Hne. eauto using keyed_inj.
Qed.

(** The statements keep the primary key and the references. *)

Lemma sid_set_discount k disc tot s : sid (set_discount k disc tot s) = sid s.
Proof. unfold set_discount. by case_decide. Qed.

Lemma wf_insert_sale d m b q disc tot db :
  is_Some (member db !! m) → is_Some (book db !! b) →
  wf_db db → wf_db (insert_sale d m b q disc tot db).
Proof.
  intros Hm Hb [Hk Hr]. split.
  - unfold keyed, insert_sale in *. simpl. rewrite fmap_app. simpl.
    apply NoDup_app. split; [done|]. split; [|apply NoDup_singleton].
    intros k [s [Hk1 Hs]]%list_elem_of_fmap Hk2%list_elem_of_singleton.
    apply sid_lt_next in Hs. lia.
  - unfold referential, insert_sale in *. simpl.
    apply Forall_app. split; [done|]. by repeat constructor.
Qed.

Lemma wf_update_book_stock q b db : wf_db db → wf_db (update_book_stock q b db).
Proof.
  intros [Hk Hr]. split; [done|].
  unfold referential, update_book_stock in *. simpl.
  eapply Forall_impl; [exact Hr|]. intros s [? Hb]. split; [done|].
  rewrite lookup_alter. case_decide; [|done]. subst. by apply fmap_is_Some.
Qed.

Lemma wf_update_sale disc tot k db : wf_db db → wf_db (update_sale disc tot k db).
Proof.
  intros [Hk Hr]. split.
  - unfold keyed, update_sale in *. simpl. rewrite <-list_fmap_compose.
    erewrite list_fmap_ext; [exact Hk|]. intros; simpl. apply sid_set_discount.
  - unfold referential, update_sale in *. simpl. apply Forall_fmap.
    eapply Forall_impl; [exact Hr|]. intros s Hs. simpl.
    unfold set_discount. by case_decide.
Qed.

Lemma wf_delete_sale k db : wf_db db → wf_db (delete_sale k db).
Proof.
  intros [Hk Hr]. split.
  - unfold keyed, delete_sale in *. simpl.
    eapply sublist_NoDup; [exact Hk|]. apply fmap_sublist, sublist_filter.
  - unfold referential, delete_sale in *. simpl.
    rewrite Forall_forall in *. intros s [_ Hs]%list_elem_of_filter. auto.
Qed.

End SqlFacts.

(** ** Running the interactive layer *)

Lemma bind_ok {A B} (m : M A) (f : A → M B) w a w' :
  m w = (Ok a, w') → (m ≫= f) w = f a w'.
Proof. intros H. unfold mbind, M_bind. by rewrite H. Qed.

Lemma while_true_S {A} (body : M (option A)) fuel :
  while_true (S fuel) body
  = (r ← body; match r with
               | Some a => mret a
               | None => while_true fuel body
               end).
Proof. reflexivity. Qed.

Lemma fmap_ok {A B} (g : A → B) (m : M A) w a w' :
  m w = (Ok a, w') → (g <$> m) w = (Ok (g a), w').
Proof. intros H. unfold fmap, M_fmap. by rewrite H. Qed.

Lemma execute_select_calm {A} (q : DB → A) c i o fs :
  Forall (λ b, b = false) fs →
  execute_select q (mkWorld c i o fs) = (Ok (q (view c)), mkWorld c i o (tail fs)).
Proof.
  intros H. unfold execute_select.
  erewrite bind_ok by (by apply sqlite_call_calm). done.
Qed.

Lemma calm_no_fault n c i o fs :
  Forall (λ b, b = false) fs → ¬ fault_within n (mkWorld c i o fs).
Proof.
  unfold fault_within. simpl. intros H Hin.
  apply elem_of_take in Hin as (k & Hk & _).
  eapply Forall_lookup_1 in H; [|exact Hk]. done.
Qed.

Lemma print_run s c i o fs :
  print s (mkWorld c i o fs) = (Ok tt, mkWorld c i (o ++ [Line s]) fs).
Proof. reflexivity. Qed.

Lemma input_run p s c i o fs :
  input p (mkWorld c (s :: i) o fs) = (Ok s, mkWorld c i (o ++ [Prompt p]) fs).
Proof. reflexivity. Qed.

(** A loop of prints only writes to the terminal. *)
Lemma for_each_print_run {A} (l : list A) (body : A → M unit) (line : A → string)
    c i o fs :
  (∀ x w, body x w = print (line x) w) →
  for_each l body (mkWorld c i o fs)
  = (Ok tt, mkWorld c i (o ++ (Line ∘ line <$> l)) fs).
Proof.
  intros Hbody. revert o. induction l as [|x l IH]; intros o; simpl.
  - by rewrite app_nil_r.
  - erewrite bind_ok by (rewrite Hbody; apply print_run).
    rewrite IH. by rewrite <-app_assoc.
Qed.

Section Runs.

Variable py_int : string → option Z.
Variable py_strip : string → string.

Lemma print_picks_run sales c i o fs :
  ∃ out, print_picks sales (mkWorld c i o fs)
         = (Ok tt, mkWorld c i (o ++ out) fs).
Proof.
  unfold print_picks.
  erewrite bind_ok by apply print_run.
  erewrite bind_ok.
  2:{ apply (for_each_print_run _ _
        (λ e, Fmt.str e.1 +:+ ". 銷售編號: " +:+ Fmt.str (Sql.p_sid e.2)
              +:+ " - 會員: " +:+ Sql.p_mname e.2
              +:+ " - 日期: " +:+ Sql.p_sdate e.2)).
      by intros [n p] w. }
  rewrite print_run. rewrite <-!app_assoc. eauto.
Qed.

Lemma get_valid_integer_input_run prompt s n c i o fs :
  s ≠ "" → py_int s = Some n →
  get_valid_integer_input py_int prompt (mkWorld c (s :: i) o fs)
  = (Ok (Some n), mkWorld c i (o ++ [Prompt prompt]) fs).
Proof.
  intros Hs Hn. unfold get_valid_integer_input, loop.
  cbn [stdin length while_true].
  erewrite bind_ok; [|].
  2:{ erewrite bind_ok by apply input_run.
      cbv beta iota. rewrite decide_False by done.
      erewrite bind_ok; [|unfold try_except, int_; by rewrite Hn].
      reflexivity. }
  reflexivity.
Qed.

Lemma get_valid_non_negative_integer_input_run prompt s n c i o fs :
  s ≠ "" → py_int s = Some n → 0 ≤ n →
  get_valid_non_negative_integer_input py_int prompt (mkWorld c (s :: i) o fs)
  = (Ok (Some n), mkWorld c i (o ++ [Prompt prompt]) fs).
Proof.
  intros Hs Hn Hpos. unfold get_valid_non_negative_integer_input, loop.
  cbn [stdin length while_true].
  erewrite bind_ok; [|].
  2:{ erewrite bind_ok by by apply get_valid_integer_input_run.
      cbv beta iota. rewrite decide_True by lia. reflexivity. }
  reflexivity.
Qed.

Lemma get_valid_positive_integer_input_run prompt s n c i o fs :
  s ≠ "" → py_int s = Some n → 0 < n →
  get_valid_positive_integer_input py_int prompt (mkWorld c (s :: i) o fs)
  = (Ok (Some n), mkWorld c i (o ++ [Prompt prompt]) fs).
Proof.
  intros Hs Hn Hpos. unfold get_valid_positive_integer_input, loop.
  cbn [stdin length while_true].
  erewrite bind_ok; [|].
  2:{ erewrite bind_ok by by apply get_valid_integer_input_run.
      cbv beta iota. rewrite decide_True by lia. reflexivity. }
  reflexivity.
Qed.

Lemma parse_choice_ok choice n idx w :
  py_int choice = Some idx → 1 ≤ idx ≤ Z.of_nat n →
  parse_choice py_int choice n w = (Ok (Some idx), w).
Proof.
  intros Hc Hr. unfold parse_choice, try_except, int_, mbind, M_bind.
  rewrite Hc. cbv beta iota delta [mret M_ret raise].
  destruct (decide (idx < 1 ∨ idx > Z.of_nat n)) as [?|_]; [lia|done].
Qed.

(** A choice that is no number, or no position of the list, is refused. *)
Lemma parse_choice_bad choice n w :
  (∀ idx, py_int choice = Some idx → idx < 1 ∨ idx > Z.of_nat n) →
  parse_choice py_int choice n w = (Ok None, w).
Proof.
  intros Hc. unfold parse_choice, try_except, int_, mbind, M_bind.
  destruct (py_int choice) as [idx|]; cbv beta iota delta [mret M_ret raise].
  - destruct (decide (idx < 1 ∨ idx > Z.of_nat n)) as [_|Hn].
    + by rewrite decide_True.
    + destruct Hn. auto.
  - by rewrite decide_True.
Qed.

End Runs.

(** What a loop answers, its body answered in the last round. *)
Lemma while_true_answer {A} (Q : A → Prop) (body : M (option A)) fuel w a :
  (∀ w a, (body w).1 = Ok (Some a) → Q a) →
  (while_true fuel body w).1 = Ok a → Q a.
Proof.
  intros Hbody. revert w. induction fuel as [|fuel IH]; intros w; [done|].
  cbn [while_true]. unfold mbind, M_bind.
  destruct (body w) as [[[a'|]| |] w1] eqn:E; simpl; try done.
  - intros [= <-]. apply (Hbody w). by rewrite E.
  - apply IH.
Qed.

Lemma loop_answer {A} (Q : A → Prop) (body : M (option A)) w a :
  (∀ w a, (body w).1 = Ok (Some a) → Q a) →
  (loop body w).1 = Ok a → Q a.
Proof. unfold loop. apply while_true_answer. Qed.

Section InputChecks.

Variable py_int : string → option Z.
Variable re_fullmatch : string → string → bool.

(** The quantity prompt hands on positive numbers only. *)
Lemma get_valid_positive_integer_input_positive prompt w n :
  (get_valid_positive_integer_input py_int prompt w).1 = Ok (Some n) → n > 0.
Proof.
  unfold get_valid_positive_integer_input.
  intros H.
  refine (loop_answer (λ v, ∀ n, v = Some n → n > 0) _ _ _ _ H n eq_refl).
  clear. intros w v. unfold mbind, M_bind.
  destruct (get_valid_integer_input py_int prompt w) as [[[k|]| |] w1];
    simpl; try done.
  - destruct (decide (k > 0)); simpl; [|done]. by intros [= <-] n [= <-].
  - by intros [= <-] n.
Qed.

(** The discount prompt hands on numbers from zero up only. *)
Lemma get_valid_non_negative_integer_input_non_negative prompt w n :
  (get_valid_non_negative_integer_input py_int prompt w).1 = Ok (Some n) → n >= 0.
Proof.
  unfold get_valid_non_negative_integer_input.
  intros H.
  refine (loop_answer (λ v, ∀ n, v = Some n → n >= 0) _ _ _ _ H n eq_refl).
  clear. intros w v. unfold mbind, M_bind.
  destruct (get_valid_integer_input py_int prompt w) as [[[k|]| |] w1];
    simpl; try done.
  - destruct (decide (k >= 0)); simpl; [|done]. by intros [= <-] n [= <-].
  - by intros [= <-] n.
Qed.

(** A number that is not positive is answered with the error line, and the
    quantity is asked for again. *)
Lemma get_valid_positive_integer_input_retry prompt s n c rest o fs :
  s ≠ "" → py_int s = Some n → n <= 0 →
  get_valid_positive_integer_input py_int prompt (mkWorld c (s :: rest) o fs)
  = get_valid_positive_integer_input py_int prompt
      (mkWorld c rest (o ++ [Prompt prompt; Line "=> 錯誤：數量必須為正整數"]) fs).
Proof.
  intros Hs Hn Hle. unfold get_valid_positive_integer_input, loop.
  cbn [stdin length]. rewrite while_true_S.
  erewrite bind_ok.
  2:{ erewrite bind_ok by (by apply get_valid_integer_input_run).
      cbv beta iota. rewrite decide_False by lia.
      erewrite bind_ok by apply print_run. reflexivity. }
  cbv beta iota. by rewrite <-app_assoc.
Qed.

(** A date of the wrong shape stops [add_new_sale] at once. *)
Lemma add_new_sale_bad_date w d rest :
  stdin w = d :: rest →
  is_valid_date re_fullmatch d = false →
  let r := add_new_sale py_int re_fullmatch w in
  r.1 = Ok tt ∧ conn r.2 = conn w ∧ stdin r.2 = rest ∧
  last (stdout r.2) = Some (Line "=> 錯誤：日期格式錯誤").
Proof.
  destruct w as [c i o fs]. simpl. intros -> Hd.
  unfold add_new_sale. run. cbn [stdin]. rewrite Hd. cbn.
  repeat split. by rewrite last_snoc.
Qed.

End InputChecks.

(** ** Transactions *)

Ltac no_fault :=
  match goal with
  | H : fault_within _ _ |- _ =>
      unfold fault_within in H; cbn in H;
      repeat (apply elem_of_cons in H as [H|H]; [discriminate H|]);
      by apply elem_of_nil in H
  | H : ¬ fault_within _ _ |- _ =>
      exfalso; apply H; unfold fault_within; cbn; by repeat constructor
  end.

Lemma add_sale_fault (sdate m b : string) (q disc : Z) (w : World)
    (mem : Member) (bk : Book) :
  member (view (conn w)) !! m = Some mem →
  book (view (conn w)) !! b = Some bk →
  q ≤ bstock bk →
  fault_within 5 w →
  let r := add_sale sdate m b q disc w in
  r.1 = Ok (false, msg_db_error) ∧ conn r.2 = mkConn (disk (conn w)) None.
Proof.
  destruct w as [c i o fs]. cbn [conn]. intros Hm Hb Hq Hf.
  unfold add_sale. run.
  unfold Sql.select_member_1, Sql.select_book_price_stock.
  exec; try no_fault; try (finish; fail).
  all: rewrite Hm, Hb; cbn [fmap option_fmap option_map];
    destruct (decide (bstock bk < q)); [lia|].
  all: exec; try no_fault; try (finish; fail).
Qed.

Lemma update_txn_run (nd tot k : Z) (w : World) :
  let r := update_txn nd tot k w in
  r.1 = Ok tt ∧
  (fault_within 2 w →
     conn r.2 = mkConn (disk (conn w)) None ∧
     last (stdout r.2) = Some (Line "=> 更新失敗，請稍後再試。")) ∧
  (¬ fault_within 2 w →
     conn r.2 = mkConn (Sql.update_sale nd tot k (view (conn w))) None ∧
     last (stdout r.2)
       = Some (Line ("=> 銷售編號 " +:+ Fmt.str k +:+ " 已更新！(銷售總額: "
                     +:+ Fmt.commas tot +:+ ")"))).
Proof.
  destruct w as [c i o fs]. unfold update_txn. run.
  exec; cbn [fst snd conn stdout]; rewrite ?last_snoc;
    (split; [done|]); split; intros Hf; try no_fault; done.
Qed.

Lemma delete_txn_run (k : Z) (w : World) :
  let r := delete_txn k w in
  r.1 = Ok tt ∧
  (fault_within 2 w →
     conn r.2 = mkConn (disk (conn w)) None ∧
     last (stdout r.2) = Some (Line "=> 刪除失敗，請稍後再試。")) ∧
  (¬ fault_within 2 w →
     conn r.2 = mkConn (Sql.delete_sale k (view (conn w))) None ∧
     last (stdout r.2)
       = Some (Line ("=> 銷售編號 " +:+ Fmt.str k +:+ " 已刪除"))).
Proof.
  destruct w as [c i o fs]. unfold delete_txn. run.
  exec; cbn [fst snd conn stdout]; rewrite ?last_snoc;
    (split; [done|]); split; intros Hf; try no_fault; done.
Qed.

#[export] Hint Resolve keeps_int_ keeps_get_valid_integer_input
  keeps_get_valid_positive_integer_input
  keeps_get_valid_non_negative_integer_input keeps_print_picks
  keeps_parse_choice keeps_nth_pick keeps_subscript : keeps.

(** Breaks an operation whose last statement changes the connection. *)
Ltac leads_tac HIJ :=
  repeat match goal with
  | |- leads ?I ?I _ => solve [keeps_tac; eauto with keeps]
  | |- leads _ _ (match ?x with _ => _ end) => destruct x
  | |- leads _ _ (_ ≫= _) => apply leads_bind; [|intros ?|exact HIJ]
  | |- leads _ _ (mret _) => apply leads_weaken; [apply leads_ret|exact HIJ]
  | |- leads _ _ (print _) => apply leads_weaken; [apply leads_print|exact HIJ]
  end.

Section Operations.

Variable py_int : string → option Z.
Variable py_strip : string → string.

Lemma leads_update_txn (I J : Conn → Prop) nd tot k :
  (∀ c, I c → J (mkConn (disk c) None)) →
  (∀ c, I c → J (mkConn (Sql.update_sale nd tot k (view c)) None)) →
  leads I J (update_txn nd tot k).
Proof.
  intros Hback Hdone w Hw.
  destruct (update_txn_run nd tot k w) as (_ & Hfail & Hok).
  destruct (decide (fault_within 2 w)) as [Hf|Hf].
  - destruct (Hfail Hf) as [-> _]. auto.
  - destruct (Hok Hf) as [-> _]. auto.
Qed.

Lemma leads_delete_txn (I J : Conn → Prop) k :
  (∀ c, I c → J (mkConn (disk c) None)) →
  (∀ c, I c → J (mkConn (Sql.delete_sale k (view c)) None)) →
  leads I J (delete_txn k).
Proof.
  intros Hback Hdone w Hw.
  destruct (delete_txn_run k w) as (_ & Hfail & Hok).
  destruct (decide (fault_within 2 w)) as [Hf|Hf].
  - destruct (Hfail Hf) as [-> _]. auto.
  - destruct (Hok Hf) as [-> _]. auto.
Qed.

(** An update changes the connection, if at all, by its last statement. *)
Lemma leads_update_sale_record (I J : Conn → Prop) :
  (∀ c, I c → J c) →
  (∀ c, I c → J (mkConn (disk c) None)) →
  (∀ c nd tot k, I c → J (mkConn (Sql.update_sale nd tot k (view c)) None)) →
  leads I J (update_sale_record py_int py_strip).
Proof.
  intros HIJ Hback Hdone. unfold update_sale_record.
  leads_tac HIJ. apply leads_update_txn; auto.
Qed.

(** A deletion changes the connection, if at all, by its last statement. *)
Lemma leads_delete_sale_record (I J : Conn → Prop) :
  (∀ c, I c → J c) →
  (∀ c, I c → J (mkConn (disk c) None)) →
  (∀ c k, I c → J (mkConn (Sql.delete_sale k (view c)) None)) →
  leads I J (delete_sale_record py_int py_strip).
Proof.
  intros HIJ Hback Hdone. unfold delete_sale_record.
  leads_tac HIJ. apply leads_delete_txn; auto.
Qed.

End Operations.

Lemma add_sale_no_fault (sdate m b : string) (q disc : Z) (w : World)
    (mem : Member) (bk : Book) :
  member (view (conn w)) !! m = Some mem →
  book (view (conn w)) !! b = Some bk →
  q ≤ bstock bk →
  ¬ fault_within 5 w →
  let total := bprice bk * q - disc in
  let r := add_sale sdate m b q disc w in
  r.1 = Ok (true, msg_sale_added total) ∧
  conn r.2 = mkConn (sale_writes sdate m b q disc total (view (conn w))) None.
Proof.
  destruct w as [c i o fs]. cbn [conn]. intros Hm Hb Hq Hf.
  unfold add_sale. run.
  unfold Sql.select_member_1, Sql.select_book_price_stock.
  exec; try no_fault.
  all: rewrite Hm, Hb; cbn [fmap option_fmap option_map];
    destruct (decide (bstock bk < q)); [lia|].
  all: exec; try no_fault; done.
Qed.

Lemma idle_view (c : Conn) : idle c → view c = disk c.
Proof. unfold idle, view. by intros ->. Qed.

Lemma update_txn_stdin nd tot k w : stdin (update_txn nd tot k w).2 = stdin w.
Proof. destruct w as [c i o fs]. unfold update_txn. run. exec; done. Qed.

Lemma delete_txn_stdin k w : stdin (delete_txn k w).2 = stdin w.
Proof. destruct w as [c i o fs]. unfold delete_txn. run. exec; done. Qed.

(** Under the references every sale has its line in the selection list. *)
Lemma sale_is_listed (db : DB) (s : Sale) :
  referential db → s ∈ sale db →
  ∃ idx p, 1 ≤ idx ≤ Z.of_nat (length (Sql.select_picks db)) ∧
           Sql.select_picks db !! Z.to_nat (idx - 1) = Some p ∧
           Sql.p_sid p = sid s.
Proof.
  intros Hr Hs. unfold referential in Hr. rewrite Forall_forall in Hr.
  destruct (Hr s Hs) as [[m Hm] _].
  set (p := Sql.mkPick (sid s) (mname m) (sdate s)).
  assert (p ∈ Sql.select_picks db) as Hp.
  { unfold Sql.select_picks. rewrite SqlFacts.elem_of_order_by.
    apply list_elem_of_omap. exists s. split; [done|].
    unfold Sql.join_member. by rewrite Hm. }
  apply list_elem_of_lookup_1 in Hp as [i Hi].
  pose proof (lookup_lt_Some _ _ _ Hi) as Hlt.
  exists (Z.of_nat i + 1), p. split; [lia|]. split; [|done].
  by replace (Z.to_nat (Z.of_nat i + 1 - 1)) with i by lia.
Qed.

Section RunOperations.

Variable py_int : string → option Z.
Variable py_strip : string → string.

Lemma update_sale_record_run c choice answer rest o fs
    (idx nd : Z) (p : Sql.Pick) (s : Sale) (bk : Book) :
  let db := view c in
  Forall (λ b, b = false) fs →
  1 ≤ idx → Sql.select_picks db !! Z.to_nat (idx - 1) = Some p →
  Sql.select_sale (Sql.p_sid p) db = Some s →
  book db !! bid s = Some bk →
  py_strip choice ≠ "" → py_int (py_strip choice) = Some idx →
  answer ≠ "" → py_int answer = Some nd → 0 ≤ nd →
  let tot := bprice bk * sqty s - nd in
  let r := update_sale_record py_int py_strip
             (mkWorld c (choice :: answer :: rest) o fs) in
  r.1 = Ok tt ∧
  conn r.2 = mkConn (Sql.update_sale nd tot (Sql.p_sid p) db) None ∧
  stdin r.2 = rest ∧
  last (stdout r.2)
    = Some (Line ("=> 銷售編號 " +:+ Fmt.str (Sql.p_sid p) +:+ " 已更新！(銷售總額: "
                  +:+ Fmt.commas tot +:+ ")")).
Proof.
  intros db Hfs Hidx Hp Hs Hbk Hc1 Hc2 Ha1 Ha2 Hnd tot r. subst r.
  pose proof (lookup_lt_Some _ _ _ Hp) as Hlen.
  unfold update_sale_record.
  erewrite bind_ok by (by apply execute_select_calm). fold db.
  cbv beta iota.
  destruct (Sql.select_picks db) as [|p0 picks] eqn:Hpicks; [done|].
  destruct (print_picks_run (p0 :: picks) c (choice :: answer :: rest) o (tail fs))
    as [out Hout].
  erewrite bind_ok by exact Hout.
  cbv beta iota.
  erewrite bind_ok by (apply fmap_ok, input_run).
  cbv beta iota.
  rewrite decide_False by done.
  erewrite bind_ok by (apply parse_choice_ok; [exact Hc2 | lia]).
  cbv beta iota.
  erewrite bind_ok.
  2:{ apply fmap_ok. unfold nth_pick. rewrite Hp. reflexivity. }
  cbv beta iota.
  erewrite bind_ok by (apply execute_select_calm; auto using calm_tail).
  cbv beta iota.
  fold db. rewrite Hs.
  erewrite bind_ok by (by apply get_valid_non_negative_integer_input_run).
  cbv beta iota.
  cbv beta iota.
  erewrite bind_ok by (apply fmap_ok; reflexivity).
  cbv beta iota.
  erewrite bind_ok by (apply execute_select_calm; auto using calm_tail).
  cbv beta iota.
  fold db. unfold Sql.select_bprice. rewrite Hbk. cbn [fmap option_fmap option_map].
  erewrite bind_ok by reflexivity.
  cbv beta iota.
  erewrite bind_ok by (apply fmap_ok; reflexivity).
  cbv beta iota.
  cbv zeta. fold tot.
  match goal with |- context [update_txn _ _ _ ?w] => set (w1 := w) end.
  destruct (update_txn_run nd tot (Sql.p_sid p) w1) as (Hr & _ & Hok).
  destruct Hok as [Hconn Hout'].
  { apply calm_no_fault. auto using calm_tail. }
  split; [exact Hr|]. split; [exact Hconn|]. split; [|exact Hout'].
  by rewrite update_txn_stdin.
Qed.

Lemma delete_sale_record_run c choice rest o fs (idx : Z) (p : Sql.Pick) :
  let db := view c in
  Forall (λ b, b = false) fs →
  1 ≤ idx → Sql.select_picks db !! Z.to_nat (idx - 1) = Some p →
  py_strip choice ≠ "" → py_int (py_strip choice) = Some idx →
  let r := delete_sale_record py_int py_strip
             (mkWorld c (choice :: rest) o fs) in
  r.1 = Ok tt ∧
  conn r.2 = mkConn (Sql.delete_sale (Sql.p_sid p) db) None ∧
  stdin r.2 = rest ∧
  last (stdout r.2)
    = Some (Line ("=> 銷售編號 " +:+ Fmt.str (Sql.p_sid p) +:+ " 已刪除")).
Proof.
  intros db Hfs Hidx Hp Hc1 Hc2 r. subst r.
  pose proof (lookup_lt_Some _ _ _ Hp) as Hlen.
  unfold delete_sale_record.
  erewrite bind_ok by (by apply execute_select_calm). fold db.
  cbv beta iota.
  destruct (Sql.select_picks db) as [|p0 picks] eqn:Hpicks; [done|].
  destruct (print_picks_run (p0 :: picks) c (choice :: rest) o (tail fs))
    as [out Hout].
  erewrite bind_ok by exact Hout.
  cbv beta iota.
  erewrite bind_ok by (apply fmap_ok, input_run).
  cbv beta iota.
  rewrite decide_False by done.
  erewrite bind_ok by (apply parse_choice_ok; [exact Hc2 | lia]).
  cbv beta iota.
  erewrite bind_ok.
  2:{ apply fmap_ok. unfold nth_pick. rewrite Hp. reflexivity. }
  cbv beta iota.
  match goal with |- context [delete_txn _ ?w] => set (w1 := w) end.
  destruct (delete_txn_run (Sql.p_sid p) w1) as (Hr & _ & Hok).
  destruct Hok as [Hconn Hout'].
  { apply calm_no_fault. auto using calm_tail. }
  split; [exact Hr|]. split; [exact Hconn|]. split; [|exact Hout'].
  by rewrite delete_txn_stdin.
Qed.

(** A choice outside the list ends the operation with the invalid-number
    message; nothing is read further and the connection is as before. *)
Lemma update_sale_record_bad_choice c choice rest o fs :
  let db := view c in
  Forall (λ b, b = false) fs →
  Sql.select_picks db ≠ [] →
  py_strip choice ≠ "" →
  (∀ idx, py_int (py_strip choice) = Some idx →
          idx < 1 ∨ idx > Z.of_nat (length (Sql.select_picks db))) →
  let r := update_sale_record py_int py_strip (mkWorld c (choice :: rest) o fs) in
  r.1 = Ok tt ∧ conn r.2 = c ∧ stdin r.2 = rest ∧
  last (stdout r.2) = Some (Line msg_invalid_number).
Proof.
  intros db Hfs Hne Hc1 Hc2 r. subst r.
  unfold update_sale_record.
  erewrite bind_ok by (by apply execute_select_calm). fold db.
  cbv beta iota.
  destruct (Sql.select_picks db) as [|p0 picks] eqn:Hpicks; [done|].
  destruct (print_picks_run (p0 :: picks) c (choice :: rest) o (tail fs))
    as [out Hout].
  erewrite bind_ok by exact Hout.
  cbv beta iota.
  erewrite bind_ok by (apply fmap_ok, input_run).
  cbv beta iota.
  rewrite decide_False by done.
  erewrite bind_ok by (apply parse_choice_bad; exact Hc2).
  cbv beta iota.
  rewrite print_run. cbn. by rewrite last_snoc.
Qed.

End RunOperations.

(** ** The stock of the books *)

Lemma stock_ok_update_book_stock (q : Z) (b : string) (db : DB) (bk : Book) :
  book db !! b = Some bk → q ≤ bstock bk →
  stock_ok db → stock_ok (Sql.update_book_stock q b db).
Proof.
  intros Hb Hq Hok i x. unfold Sql.update_book_stock. simpl.
  rewrite lookup_alter. case_decide as Hi.
  - subst i. rewrite Hb. simpl. intros [= <-]. simpl. lia.
  - apply Hok.
Qed.

(** ** Listing the sales *)

Lemma print_sale_run (sale : Sql.Line) c i o fs :
  print_sale sale (mkWorld c i o fs)
  = (Ok tt, mkWorld c i (o ++ (Line <$> sale_lines sale)) fs).
Proof.
  unfold print_sale.
  repeat (erewrite bind_ok by apply print_run; cbv beta).
  rewrite print_run. unfold sale_lines. simpl. by rewrite <-!app_assoc.
Qed.

Lemma for_each_print_sale_run (sales : list Sql.Line) c i o fs :
  for_each sales print_sale (mkWorld c i o fs)
  = (Ok tt, mkWorld c i (o ++ (Line <$> (sales ≫= sale_lines))) fs).
Proof.
  revert o. induction sales as [|x l IH]; intros o; cbn [for_each].
  - by rewrite app_nil_r.
  - erewrite bind_ok by apply print_sale_run.
    rewrite IH. by rewrite bind_cons, fmap_app, app_assoc.
Qed.

Lemma print_sale_report_run c i o fs :
  Forall (λ b, b = false) fs →
  print_sale_report (mkWorld c i o fs)
  = (Ok tt,
     mkWorld c i
       (o ++ Line report_header :: (Line <$> (Sql.select_report (view c) ≫= sale_lines)))
       (tail fs)).
Proof.
  intros Hfs. unfold print_sale_report.
  erewrite bind_ok by (by apply execute_select_calm).
  erewrite bind_ok by apply print_run.
  rewrite for_each_print_sale_run. by rewrite <-app_assoc.
Qed.

Lemma print_sale_report_stdin w : stdin (print_sale_report w).2 = stdin w.
Proof.
  destruct w as [c i o fs]. unfold print_sale_report, execute_select.
  unfold mbind at 1, M_bind at 1. unfold mbind at 1, M_bind at 1.
  destruct fs as [|[] fs]; cbn [sqlite_call faults]; cbv beta iota;
    [|done|]; unfold read_view; cbn [conn stdin stdout faults];
    (erewrite bind_ok by apply print_run);
    by rewrite for_each_print_sale_run.
Qed.

(** The report after a sale was added: the rows of before, then the new
    one. *)
Lemma select_report_sale_writes (db : DB) (sdate m b : string) (q disc tot : Z)
    (mem : Member) (bk : Book) :
  member db !! m = Some mem → book db !! b = Some bk →
  Sql.select_report (sale_writes sdate m b q disc tot db)
  = Sql.select_report db
    ++ [Sql.mkLine (Sql.next_sid db) sdate (mname mem) (btitle bk) (bprice bk)
                   q disc tot].
Proof.
  intros Hm Hb. unfold Sql.select_report, sale_writes.
  set (db' := Sql.update_book_stock _ _ _).
  assert (∀ s, Sql.join_member_book db' s = Sql.join_member_book db s) as Hjoin.
  { intros s. unfold Sql.join_member_book, db'. simpl.
    destruct (member db !! mid s) as [m0|]; simpl; [|done].
    rewrite lookup_alter. case_decide as Hi; [|done].
    rewrite <-Hi. by destruct (book db !! b). }
  unfold db' at 2. simpl. rewrite omap_app.
  rewrite (list_omap_ext _ (Sql.join_member_book db) _ (sale db))
    by (apply Forall2_same_length_lookup_2; [done|]; intros; simplify_eq; apply Hjoin).
  simpl. rewrite Hjoin. unfold Sql.join_member_book at 2. simpl.
  rewrite Hm, Hb. simpl.
  rewrite SqlFacts.order_by_snoc. apply SqlFacts.insert_by_last.
  rewrite Forall_forall. intros l Hl.
  apply SqlFacts.elem_of_order_by, list_elem_of_omap in Hl as (s & Hs & Hjs).
  apply SqlFacts.sid_lt_next in Hs. simpl.
  unfold Sql.join_member_book in Hjs.
  destruct (member db !! mid s), (book db !! bid s); simplify_eq/=. lia.
Qed.

Lemma length_omap_total {A B} (f : A → option B) (l : list A) :
  Forall (λ x, is_Some (f x)) l → length (omap f l) = length l.
Proof.
  induction 1 as [|x l [y Hy] Hl IH]; [done|].
  cbn [omap list_omap]. rewrite Hy. simpl. by rewrite IH.
Qed.

Lemma join_member_book_referential (db : DB) (s : Sale) :
  is_Some (member db !! mid s) ∧ is_Some (book db !! bid s) →
  ∃ m b, member db !! mid s = Some m ∧ book db !! bid s = Some b ∧
         Sql.join_member_book db s = Some (report_line s m b).
Proof.
  intros [[m Hm] [b Hb]]. exists m, b. unfold Sql.join_member_book.
  by rewrite Hm, Hb.
Qed.

Lemma join_member_book_Some (db : DB) (s : Sale) (l : Sql.Line) :
  Sql.join_member_book db s = Some l →
  ∃ m b, member db !! mid s = Some m ∧ book db !! bid s = Some b ∧
         l = report_line s m b.
Proof.
  unfold Sql.join_member_book.
  destruct (member db !! mid s) as [m|]; [|done].
  destruct (book db !! bid s) as [b|]; [|done].
  simpl. intros [= <-]. by exists m, b.
Qed.

(** ** The loops end

    Every loop of the program reads a line in each round, so the rounds that
    [loop] allows, one more than there are lines, are never used up: the
    answer [OutOfFuel] does not occur. *)

Section Bounded.

Lemma bounded_ret {A} (a : A) : bounded (mret a : M A).
Proof. intros w. by split. Qed.

Lemma bounded_raise {A} (e : exn) : bounded (raise e : M A).
Proof. intros w. by split. Qed.

Lemma bounded_print s : bounded (print s).
Proof. intros w. by split. Qed.

Lemma reading_input s : reading (input s).
Proof.
  split.
  - intros [c [|l i] o fs]; simpl; split; (done || lia).
  - intros [c [|l i] o fs] a; simpl; [done|]. intros _. lia.
Qed.

Lemma bounded_sqlite_call : bounded sqlite_call.
Proof. intros [c i o [|[] fs]]; by split. Qed.

Lemma bounded_bind {A B} (m : M A) (f : A → M B) :
  bounded m → (∀ a, bounded (f a)) → bounded (m ≫= f).
Proof.
  intros Hm Hf w. destruct (Hm w) as [Hm1 Hm2].
  unfold mbind, M_bind. destruct (m w) as [[a|e|] w']; simpl in *; [|done..].
  destruct (Hf a w') as [Hf1 Hf2]. split; [done|lia].
Qed.

Lemma reading_bind {A B} (m : M A) (f : A → M B) :
  reading m → (∀ a, bounded (f a)) → reading (m ≫= f).
Proof.
  intros [Hm Hr] Hf. split; [by apply bounded_bind|].
  intros w b. specialize (Hr w). unfold mbind, M_bind.
  destruct (m w) as [[a|e|] w']; simpl in *; [|done..].
  destruct (Hf a w') as [_ Hf2]. specialize (Hr a eq_refl). intros _. lia.
Qed.

Lemma bounded_fmap {A B} (g : A → B) (m : M A) : bounded m → bounded (g <$> m).
Proof.
  intros Hm w. destruct (Hm w) as [Hm1 Hm2].
  unfold fmap, M_fmap. by destruct (m w) as [[a|e|] w'].
Qed.

Lemma bounded_try_except {A} (e : exn) (m : M A) :
  bounded m → bounded (try_except e m).
Proof.
  intros Hm w. destruct (Hm w) as [Hm1 Hm2].
  unfold try_except. destruct (m w) as [[a|e'|] w']; simpl in *; [done| |done].
  by destruct (decide (e' = e)).
Qed.

Lemma bounded_select {A} (q : DB → A) : bounded (execute_select q).
Proof. intros [c i o [|[] fs]]; by split. Qed.

Lemma bounded_write (f : DB → DB) : bounded (execute_write f).
Proof. intros [c i o [|[] fs]]; by split. Qed.

Lemma bounded_commit : bounded commit.
Proof. intros [c i o [|[] fs]]; by split. Qed.

Lemma bounded_rollback : bounded rollback.
Proof. intros w. by split. Qed.

Lemma bounded_for_each {A} (l : list A) (body : A → M unit) :
  (∀ x, bounded (body x)) → bounded (for_each l body).
Proof.
  intros Hb. induction l as [|x l IH]; simpl.
  - apply bounded_ret.
  - apply bounded_bind; [apply Hb | intros _; exact IH].
Qed.

(** With more rounds than lines, a loop whose body reads a line in each
    round ends, and has read a line when it answers. *)
Lemma while_true_reading {A} (body : M (option A)) fuel w :
  reading body →
  (length (stdin w) < fuel)%nat →
  (while_true fuel body w).1 ≠ OutOfFuel ∧
  (length (stdin (while_true fuel body w).2) ≤ length (stdin w))%nat ∧
  ∀ a, (while_true fuel body w).1 = Ok a →
       (length (stdin (while_true fuel body w).2) < length (stdin w))%nat.
Proof.
  intros [Hb Hr]. revert w. induction fuel as [|fuel IH]; intros w Hlen; [lia|].
  cbn [while_true]. unfold mbind, M_bind.
  destruct (Hb w) as [Hb1 Hb2]. specialize (Hr w).
  destruct (body w) as [[[a|]|e|] w'] eqn:E; simpl in *; [| |done..].
  - split; [done|]. split; [done|]. intros _ _. by apply (Hr (Some a)).
  - specialize (Hr None eq_refl).
    destruct (IH w') as (H1 & H2 & H3); [lia|].
    split; [done|]. split; [lia|]. intros a Ha. specialize (H3 a Ha). lia.
Qed.

Lemma reading_loop {A} (body : M (option A)) : reading body → reading (loop body).
Proof.
  intros Hb. split.
  - intros w. unfold loop.
    destruct (while_true_reading body (S (length (stdin w))) w Hb) as (? & ? & _);
      [lia|done].
  - intros w a. unfold loop.
    destruct (while_true_reading body (S (length (stdin w))) w Hb) as (_ & _ & H);
      [lia|]. apply H.
Qed.

End Bounded.

Ltac bounded_step :=
  match goal with
  | |- bounded (match ?x with _ => _ end) => destruct x
  | |- bounded (let '(_, _) := ?x in _) => destruct x
  | |- bounded (_ ≫= _) => apply bounded_bind; [|intros ?]
  | |- bounded (_ <$> _) => apply bounded_fmap
  | |- bounded (try_except _ _) => apply bounded_try_except
  | |- bounded (for_each _ _) => apply bounded_for_each; intros ?
  | |- bounded (mret _) => apply bounded_ret
  | |- bounded (raise _) => apply bounded_raise
  | |- bounded (print _) => apply bounded_print
  | |- bounded (input _) => apply reading_input
  | |- bounded (execute_select _) => apply bounded_select
  | |- bounded (execute_write _) => apply bounded_write
  | |- bounded commit => apply bounded_commit
  | |- bounded rollback => apply bounded_rollback
  | |- bounded (loop _) => apply reading_loop
  | |- reading (loop _) => apply reading_loop
  | |- reading (input _ ≫= _) => apply reading_bind; [apply reading_input|intros ?]
  end.

Ltac bounded_tac := repeat bounded_step.

Section BoundedProgram.

Variable py_int : string → option Z.
Variable py_strip : string → string.
Variable re_fullmatch : string → string → bool.

Lemma bounded_int_ s : bounded (int_ py_int s).
Proof. unfold int_. bounded_tac. Qed.

Lemma reading_get_valid_integer_input prompt :
  reading (get_valid_integer_input py_int prompt).
Proof.
  unfold get_valid_integer_input. bounded_tac. apply bounded_int_.
Qed.

Lemma reading_get_valid_positive_integer_input prompt :
  reading (get_valid_positive_integer_input py_int prompt).
Proof.
  unfold get_valid_positive_integer_input. apply reading_loop.
  apply reading_bind; [apply reading_get_valid_integer_input|].
  intros v. bounded_tac.
Qed.

Lemma reading_get_valid_non_negative_integer_input prompt :
  reading (get_valid_non_negative_integer_input py_int prompt).
Proof.
  unfold get_valid_non_negative_integer_input. apply reading_loop.
  apply reading_bind; [apply reading_get_valid_integer_input|].
  intros v. bounded_tac.
Qed.

Lemma bounded_add_sale sdate m b q disc : bounded (add_sale sdate m b q disc).
Proof. unfold add_sale. bounded_tac. Qed.

Lemma bounded_add_new_sale : bounded (add_new_sale py_int re_fullmatch).
Proof.
  unfold add_new_sale. bounded_tac;
    first [apply reading_get_valid_positive_integer_input
          |apply reading_get_valid_non_negative_integer_input
          |apply bounded_add_sale].
Qed.

Lemma bounded_print_sale_report : bounded print_sale_report.
Proof. unfold print_sale_report, print_sale. bounded_tac. Qed.

Lemma bounded_update_sale_record : bounded (update_sale_record py_int py_strip).
Proof.
  unfold update_sale_record, print_picks, print_pick, parse_choice, nth_pick,
    subscript, update_txn.
  bounded_tac;
    first [apply bounded_int_
          |apply reading_get_valid_non_negative_integer_input].
Qed.

Lemma bounded_delete_sale_record : bounded (delete_sale_record py_int py_strip).
Proof.
  unfold delete_sale_record, print_picks, print_pick, parse_choice, nth_pick,
    delete_txn.
  bounded_tac; apply bounded_int_.
Qed.

(** No operation of the menu runs out of rounds. *)
Lemma operations_end w :
  (add_new_sale py_int re_fullmatch w).1 ≠ OutOfFuel ∧
  (print_sale_report w).1 ≠ OutOfFuel ∧
  (update_sale_record py_int py_strip w).1 ≠ OutOfFuel ∧
  (delete_sale_record py_int py_strip w).1 ≠ OutOfFuel.
Proof.
  repeat split.
  - apply bounded_add_new_sale.
  - apply bounded_print_sale_report.
  - apply bounded_update_sale_record.
  - apply bounded_delete_sale_record.
Qed.

End BoundedProgram.

(** * The claims *)

(** ** Creating a sale *)





(** C3.  When the member and the book exist and the stock is below the
    quantity asked for, the request is refused with the insufficient-stock
    message, the message shows the stock that remains, and the connection,
    hence the stock of the book and the sale rows, is as before. *)
Theorem add_sale_insufficient_stock
    (sdate m b : string) (q disc : Z) (w : World) (mem : Member) (bk : Book) :
  calm w →
  member (view (conn w)) !! m = Some mem →
  book (view (conn w)) !! b = Some bk →
  bstock bk < q →
  let r := add_sale sdate m b q disc w in
  let msg := msg_insufficient_stock (bstock bk) in
  r.1 = Ok (false, msg) ∧
  error_kind_of msg = Some InsufficientStock ∧
  (∃ before after, msg = before +:+ Fmt.str (bstock bk) +:+ after) ∧
  conn r.2 = conn w.
Proof.
  destruct w as [c i o fs]. unfold calm. simpl. intros Hfs Hm Hb Hq.
  unfold add_sale. run.
  rewrite sqlite_call_calm by done. simpl.
  rewrite sqlite_call_calm by auto using calm_tail. simpl.
  unfold Sql.select_member_1, Sql.select_book_price_stock.
  rewrite Hm, Hb. simpl.
  destruct (decide (bstock bk < q)) as [_|]; [|lia]. simpl.
  split; [done|]. split; [reflexivity|]. split; [|done].
  eexists _, _. reflexivity.
Qed.

Lemma add_sale_insufficient_stock_witness :
  let w := quiet_world seeded [] in
  let r := add_sale "2024-02-01" "M001" "B002" 31 0 w in
  r.1 = Ok (false, "錯誤：書籍庫存不足 (剩餘 30)") ∧
  error_kind_of "錯誤：書籍庫存不足 (剩餘 30)" = Some InsufficientStock ∧
  (∃ before after,
     "錯誤：書籍庫存不足 (剩餘 30)" = before +:+ Fmt.str 30 +:+ after) ∧
  conn r.2 = conn w.
Proof.
  apply (add_sale_insufficient_stock
           "2024-02-01" "M001" "B002" 31 0 (quiet_world seeded [])
           (mkMember "Alice" "0912-345678" (Some "alice@example.com"))
           (mkBook "Data Science Basics" 800 30)).
  - constructor.
  - reflexivity.
  - reflexivity.
  - simpl. lia.
Defined.

(** C4.  When the member or the book of a create-sale request does not
    exist, the request is refused with the invalid-identifier message and the
    connection, hence every table, is as before. *)
Theorem add_sale_unknown_member_or_book
    (sdate m b : string) (q disc : Z) (w : World) :
  calm w →
  member (view (conn w)) !! m = None ∨ book (view (conn w)) !! b = None →
  let r := add_sale sdate m b q disc w in
  r.1 = Ok (false, msg_invalid_ids) ∧
  error_kind_of msg_invalid_ids = Some NotFound ∧
  conn r.2 = conn w.
Proof.
  destruct w as [c i o fs]. unfold calm. simpl. intros Hfs Hmiss.
  unfold add_sale. run.
  rewrite sqlite_call_calm by done. simpl.
  rewrite sqlite_call_calm by auto using calm_tail. simpl.
  unfold Sql.select_member_1, Sql.select_book_price_stock.
  destruct Hmiss as [-> | ->]; simpl.
  - done.
  - by destruct (member (view c) !! m).
Qed.

Lemma add_sale_unknown_member_or_book_witness :
  let w := quiet_world seeded [] in
  let r := add_sale "2024-02-01" "M001" "B999" 1 0 w in
  r.1 = Ok (false, msg_invalid_ids) ∧
  error_kind_of msg_invalid_ids = Some NotFound ∧
  conn r.2 = conn w.
Proof.
  apply (add_sale_unknown_member_or_book
           "2024-02-01" "M001" "B999" 1 0 (quiet_world seeded [])).
  - constructor.
  - right. reflexivity.
Defined.



(** ** Updating a discount *)



(** The scenario of the specification: on the seeded store a sale of three
    copies of B001 with a discount of 50 has the total 1750 and leaves 47
    copies; setting its discount to 0 gives the total 1800. *)
Example scenario_create_then_update :
  let r1 := add_sale "2024-02-01" "M001" "B001" 3 50 (quiet_world seeded []) in
  let db1 := disk (conn r1.2) in
  let r2 := update_sale_record Plain.int Plain.strip (quiet_world db1 ["6"; "0"]) in
  let db2 := disk (conn r2.2) in
  r1.1 = Ok (true, "銷售記錄已新增！(銷售總額: 1,750)") ∧
  Sql.select_sale 6 db1 = Some (mkSale 6 "2024-02-01" "M001" "B001" 3 50 1750) ∧
  bstock <$> book db1 !! "B001" = Some 47 ∧
  Sql.select_sale 6 db2 = Some (mkSale 6 "2024-02-01" "M001" "B001" 3 0 1800) ∧
  bstock <$> book db2 !! "B001" = Some 47.
Proof. vm_compute. repeat split. Qed.




(** ** Deleting a sale *)

(** C7.  In a store that keeps its primary key and its references, every
    sale has a position in the selection list, and choosing that position
    removes that sale and nothing else: the other sales stay, in their
    order, and the members, the books with their stock, and the key counter
    are as before. *)
Theorem delete_removes_exactly_that_sale
    (py_int : string → option Z) (py_strip : string → string)
    (w : World) (s : Sale) :
  let db := view (conn w) in
  calm w → wf_db db → s ∈ sale db →
  ∃ idx,
    1 ≤ idx ∧
    Sql.p_sid <$> Sql.select_picks db !! Z.to_nat (idx - 1) = Some (sid s) ∧
    ∀ choice rest,
      stdin w = choice :: rest →
      py_strip choice ≠ "" → py_int (py_strip choice) = Some idx →
      let r := delete_sale_record py_int py_strip w in
      let db' := disk (conn r.2) in
      r.1 = Ok tt ∧ idle (conn r.2) ∧
      sale db' = filter (λ x, x ≠ s) (sale db) ∧
      (s ∉ sale db') ∧
      (∀ x, x ∈ sale db → x ≠ s → x ∈ sale db') ∧
      member db' = member db ∧
      book db' = book db ∧
      sale_seq db' = sale_seq db.
Proof.
  intros db Hw [Hk Hr] Hs.
  destruct (sale_is_listed db s Hr Hs) as (idx & p & [Hidx _] & Hp & Hsid).
  exists idx. split; [done|].
  split; [by rewrite Hp; simpl; rewrite Hsid|].
  intros choice rest Hin Hc1 Hc2 r db'. subst db' r.
  destruct w as [c i o fs]. simpl in Hin. subst i. unfold calm in Hw. simpl in *.
  destruct (delete_sale_record_run py_int py_strip c choice rest o fs
              idx p Hw Hidx Hp Hc1 Hc2) as (Hres & Hconn & _ & _).
  rewrite Hconn. simpl. rewrite Hsid.
  rewrite SqlFacts.delete_sale_keyed_rows by done.
  split; [done|]. split; [done|]. split; [done|].
  split; [|split; [|done]].
  - rewrite list_elem_of_filter. by intros [? _].
  - intros x Hx Hne. by apply list_elem_of_filter.
Qed.

Lemma delete_removes_exactly_that_sale_witness :
  let w := quiet_world seeded ["4"] in
  let s := mkSale 4 "2024-01-18" "M003" "B001" 1 0 600 in
  ∃ idx,
    1 ≤ idx ∧
    Sql.p_sid <$> Sql.select_picks seeded !! Z.to_nat (idx - 1) = Some 4 ∧
    ∀ choice rest,
      stdin w = choice :: rest →
      Plain.strip choice ≠ "" → Plain.int (Plain.strip choice) = Some idx →
      let r := delete_sale_record Plain.int Plain.strip w in
      let db' := disk (conn r.2) in
      r.1 = Ok tt ∧ idle (conn r.2) ∧
      sale db' = filter (λ x, x ≠ s) (sale seeded) ∧
      (s ∉ sale db') ∧
      (∀ x, x ∈ sale seeded → x ≠ s → x ∈ sale db') ∧
      member db' = member seeded ∧
      book db' = book seeded ∧
      sale_seq db' = sale_seq seeded.
Proof.
  apply (delete_removes_exactly_that_sale Plain.int Plain.strip
           (quiet_world seeded ["4"])
           (mkSale 4 "2024-01-18" "M003" "B001" 1 0 600)).
  - constructor.
  - apply (bool_decide_unpack (wf_db seeded)). vm_compute. reflexivity.
  - apply (bool_decide_unpack (_ ∈ sale seeded)). vm_compute. reflexivity.
Defined.

(** The end of the scenario of the specification: deleting the new sale
    leaves the stock at 47. *)
Example scenario_delete_keeps_stock :
  let r1 := add_sale "2024-02-01" "M001" "B001" 3 50 (quiet_world seeded []) in
  let db1 := disk (conn r1.2) in
  let r3 := delete_sale_record Plain.int Plain.strip (quiet_world db1 ["6"]) in
  let db3 := disk (conn r3.2) in
  Sql.select_sale 6 db3 = None ∧
  sale db3 = sale seeded ∧
  bstock <$> book db3 !! "B001" = Some 47.
Proof. vm_compute. repeat split. Qed.

(** ** Listing the sales *)



(** The round trip on the seeded store: the new sale is the last row of the
    report, with the name of its member and the title of its book. *)
Example scenario_create_then_list :
  let r1 := add_sale "2024-02-01" "M001" "B001" 3 50 (quiet_world seeded []) in
  Sql.l_sid <$> Sql.select_report (disk (conn r1.2)) = [1; 2; 3; 4; 5; 6] ∧
  last (Sql.select_report (disk (conn r1.2)))
  = Some (Sql.mkLine 6 "2024-02-01" "Alice" "Python Programming" 600 3 50 1750).
Proof. vm_compute. repeat split. Qed.

(** ** The stock of the books *)

(** C9.  No operation makes a stock negative: from a state in which every
    book has a stock of zero or more, every call of [add_sale], whether it
    succeeds, is refused or fails, every discount update and every deletion
    ends in such a state. *)
Theorem stock_never_negative
    (py_int : string → option Z) (py_strip : string → string) (w : World) :
  stock_ok (disk (conn w)) →
  stock_ok (view (conn w)) →
  (∀ sdate m b q disc,
     let r := add_sale sdate m b q disc w in
     stock_ok (disk (conn r.2)) ∧ stock_ok (view (conn r.2))) ∧
  (let r := update_sale_record py_int py_strip w in
   stock_ok (disk (conn r.2)) ∧ stock_ok (view (conn r.2))) ∧
  (let r := delete_sale_record py_int py_strip w in
   stock_ok (disk (conn r.2)) ∧ stock_ok (view (conn r.2))).
Proof.
  intros Hdisk Hview. split; [|split].
  - intros sdate m b q disc r.
    destruct (add_sale_cases sdate m b q disc w) as (_ & _ & Hcases).
    fold r in Hcases.
    destruct Hcases as [(msg & _ & [-> | ->])|(mem & bk & _ & Hb & Hq & _ & ->)];
      [done..|].
    cbn [disk view txn default].
    split; by eapply stock_ok_update_book_stock.
  - apply (leads_update_sale_record py_int py_strip
             (λ c, stock_ok (disk c) ∧ stock_ok (view c))
             (λ c, stock_ok (disk c) ∧ stock_ok (view c))); [done|..|done].
    + by intros c [? _].
    + by intros c nd tot k [_ ?].
  - apply (leads_delete_sale_record py_int py_strip
             (λ c, stock_ok (disk c) ∧ stock_ok (view c))
             (λ c, stock_ok (disk c) ∧ stock_ok (view c))); [done|..|done].
    + by intros c [? _].
    + by intros c k [_ ?].
Qed.

Lemma stock_never_negative_witness :
  let w := quiet_world seeded ["1"; "20"] in
  stock_ok (disk (conn w)) ∧
  (∀ sdate m b q disc,
     let r := add_sale sdate m b q disc w in
     stock_ok (disk (conn r.2)) ∧ stock_ok (view (conn r.2))) ∧
  (let r := update_sale_record Plain.int Plain.strip w in
   stock_ok (disk (conn r.2)) ∧ stock_ok (view (conn r.2))) ∧
  (let r := delete_sale_record Plain.int Plain.strip w in
   stock_ok (disk (conn r.2)) ∧ stock_ok (view (conn r.2))).
Proof.
  assert (stock_ok seeded) as Hseeded.
  { apply (bool_decide_unpack (stock_ok seeded)). vm_compute. reflexivity. }
  split; [exact Hseeded|].
  apply (stock_never_negative Plain.int Plain.strip
           (quiet_world seeded ["1"; "20"])); exact Hseeded.
Defined.


(** * Further properties of the program *)

(** ** Rules for answers and exceptions *)

Section Triple.

Lemma triple_ret {A} (I : Conn → Prop) (a : A) Q E :
  (∀ c, I c → Q a c) → triple I (mret a : M A) Q E.
Proof. intros H w Hw. by apply H. Qed.

Lemma triple_bind {A B} (I : Conn → Prop) (m : M A) (f : A → M B) K Q E :
  triple I m K E → (∀ a, triple (K a) (f a) Q E) → triple I (m ≫= f) Q E.
Proof.
  intros Hm Hf w Hw. specialize (Hm w Hw).
  unfold mbind, M_bind. destruct (m w) as [[a|e|] w']; simpl in *; auto.
  by apply Hf.
Qed.

Lemma triple_conseq {A} (I I' : Conn → Prop) (m : M A) Q Q' E E' :
  triple I' m Q' E' →
  (∀ c, I c → I' c) → (∀ a c, Q' a c → Q a c) → (∀ c, E' c → E c) →
  triple I m Q E.
Proof.
  intros Hm HI HQ HE w Hw. specialize (Hm w (HI _ Hw)).
  destruct (m w).1; auto.
Qed.

Lemma triple_leads {A} (I J : Conn → Prop) (m : M A) :
  leads I J m → triple I m (λ _, J) J.
Proof. intros Hm w Hw. specialize (Hm w Hw). by destruct (m w).1. Qed.

Lemma leads_triple {A} (I J : Conn → Prop) (m : M A) :
  triple I m (λ _, J) J → leads I J m.
Proof. intros Hm w Hw. specialize (Hm w Hw). by destruct (m w).1. Qed.

(** What is known of the answer, beside what is kept of the connection. *)
Lemma triple_answer {A} (I : Conn → Prop) (m : M A) (P : A → Prop) :
  keeps I m → (∀ w a, (m w).1 = Ok a → P a) →
  triple I m (λ a c, I c ∧ P a) I.
Proof.
  intros Hm HP w Hw. specialize (Hm w Hw). specialize (HP w).
  destruct (m w).1; auto.
Qed.

Lemma triple_fmap {A B} (g : A → B) (I : Conn → Prop) (m : M A) Q E :
  triple I m (λ a, Q (g a)) E → triple I (g <$> m) Q E.
Proof.
  intros Hm w Hw. specialize (Hm w Hw).
  unfold fmap, M_fmap. by destruct (m w) as [[a|e|] w'].
Qed.

Lemma triple_select {A} (I : Conn → Prop) (q : DB → A) :
  triple I (execute_select q) (λ a c, I c ∧ a = q (view c)) I.
Proof. intros [c i o [|[] fs]] H; unfold execute_select; run; cbn; auto. Qed.

Lemma triple_executescript (I : Conn → Prop) (f : DB → DB) :
  triple I (executescript f)
         (λ _ c', ∃ c, I c ∧ c' = mkConn (f (view c)) None) I.
Proof. intros [c i o [|[] fs]] H; unfold executescript; run; cbn; eauto. Qed.

Lemma triple_commit (I : Conn → Prop) :
  triple I commit (λ _ c', ∃ c, I c ∧ c' = mkConn (view c) None) I.
Proof. intros [c i o [|[] fs]] H; run; cbn; eauto. Qed.

Lemma triple_input (I : Conn → Prop) p : triple I (input p) (λ _, I) I.
Proof. apply triple_leads, leads_input. Qed.

Lemma triple_print (I : Conn → Prop) s : triple I (print s) (λ _, I) I.
Proof. apply triple_leads, leads_print. Qed.

(** A loop keeps what each of its rounds keeps. *)
Lemma triple_while_true {A} (I : Conn → Prop) (body : M (option A)) Q E fuel :
  triple I body (λ r c, match r with Some a => Q a c | None => I c end) E →
  (∀ c, I c → E c) →
  triple I (while_true fuel body) Q E.
Proof.
  intros Hb HIE. induction fuel as [|fuel IH]; cbn [while_true].
  - intros w Hw. simpl. auto.
  - eapply triple_bind; [exact Hb|]. intros [a|]; [|exact IH].
    by apply triple_ret.
Qed.

Lemma triple_loop {A} (I : Conn → Prop) (body : M (option A)) Q E :
  triple I body (λ r c, match r with Some a => Q a c | None => I c end) E →
  (∀ c, I c → E c) →
  triple I (loop body) Q E.
Proof. intros Hb HIE w. unfold loop. by apply triple_while_true. Qed.

End Triple.

(** ** The statements keep the store in order *)

Section StoreOk.
Import Sql.

Lemma max_sid_nonneg rows : 0 ≤ max_sid rows.
Proof. induction rows as [|s l IH]; simpl; lia. Qed.

Lemma seq_ok_insert_sale d m b q disc tot db :
  seq_ok db → seq_ok (insert_sale d m b q disc tot db).
Proof.
  unfold seq_ok, insert_sale. simpl. intros [Hpos H].
  split; [unfold next_sid; lia|].
  apply Forall_app. split.
  - eapply Forall_impl; [exact H|]. simpl. intros s Hs. unfold next_sid. lia.
  - by repeat constructor.
Qed.

Lemma seq_ok_update_sale disc tot k db : seq_ok db → seq_ok (update_sale disc tot k db).
Proof.
  unfold seq_ok, update_sale. simpl. intros [Hpos H]. split; [done|].
  apply Forall_fmap.
  eapply Forall_impl; [exact H|]. simpl. intros s Hs.
  by rewrite SqlFacts.sid_set_discount.
Qed.

Lemma seq_ok_delete_sale k db : seq_ok db → seq_ok (delete_sale k db).
Proof.
  unfold seq_ok, delete_sale. simpl. intros [Hpos H]. split; [done|].
  rewrite Forall_forall in *. intros s [_ Hs]%list_elem_of_filter. auto.
Qed.

(** Under [seq_ok] the next key is the counter plus one. *)
Lemma next_sid_seq db : seq_ok db → next_sid db = sale_seq db + 1.
Proof.
  unfold seq_ok, next_sid. intros [Hpos H]. f_equal.
  apply Z.max_l. induction H as [|s l Hs Hl IH]; simpl; lia.
Qed.

Lemma seeds_or_empty_alter {V} (f : V → V) (k : string) (seed table : gmap string V) :
  seeds_or_empty seed table → seeds_or_empty seed (alter f k table).
Proof.
  intros [->|H]; [left|right].
  - apply map_eq. intros i. rewrite lookup_alter, !lookup_empty. by case_decide.
  - by rewrite dom_alter_L.
Qed.

Lemma store_ok_sale_writes d m b q disc tot db bk :
  is_Some (member db !! m) → book db !! b = Some bk → q ≤ bstock bk →
  store_ok db → store_ok (sale_writes d m b q disc tot db).
Proof.
  intros Hm Hb Hq (Hwf & Hstock & Hseq & Hms & Hbs). unfold sale_writes.
  split; [|split; [|split; [|split]]].
  - by apply SqlFacts.wf_update_book_stock, SqlFacts.wf_insert_sale.
  - by eapply stock_ok_update_book_stock.
  - by apply (seq_ok_insert_sale d m b q disc tot) in Hseq.
  - done.
  - simpl. by apply seeds_or_empty_alter.
Qed.

Lemma store_ok_update_sale disc tot k db :
  store_ok db → store_ok (update_sale disc tot k db).
Proof.
  intros (Hwf & Hstock & Hseq & Hms & Hbs).
  split; [|split; [|split; [|split]]]; try done.
  - by apply SqlFacts.wf_update_sale.
  - by apply seq_ok_update_sale.
Qed.

Lemma store_ok_delete_sale k db : store_ok db → store_ok (delete_sale k db).
Proof.
  intros (Hwf & Hstock & Hseq & Hms & Hbs).
  split; [|split; [|split; [|split]]]; try done.
  - by apply SqlFacts.wf_delete_sale.
  - by apply seq_ok_delete_sale.
Qed.

End StoreOk.

(** ** The bootstrap *)

Ltac calm_solve := repeat apply calm_tail; assumption.

Lemma executescript_calm (f : DB → DB) c i o fs :
  Forall (λ b, b = false) fs →
  executescript f (mkWorld c i o fs)
  = (Ok tt, mkWorld (mkConn (f (view c)) None) i o (tail fs)).
Proof.
  intros H. unfold executescript.
  erewrite bind_ok by (by apply sqlite_call_calm). done.
Qed.

Lemma commit_calm c i o fs :
  Forall (λ b, b = false) fs →
  commit (mkWorld c i o fs) = (Ok tt, mkWorld (mkConn (view c) None) i o (tail fs)).
Proof.
  intros H. unfold commit.
  erewrite bind_ok by (by apply sqlite_call_calm). done.
Qed.

Ltac calm_step :=
  erewrite bind_ok by
    first [ apply execute_select_calm; calm_solve
          | apply executescript_calm; calm_solve
          | apply commit_calm; calm_solve
          | reflexivity ];
  cbv beta iota; cbn [view txn disk default].

(** With no failing call, [initialize_db] commits [bootstrap]. *)
Lemma initialize_db_run (w : World) :
  calm w →
  let r := initialize_db w in
  r.1 = Ok tt ∧
  conn r.2 = mkConn (bootstrap (view (conn w))) None ∧
  stdin r.2 = stdin w ∧ stdout r.2 = stdout w ∧ calm r.2.
Proof.
  destruct w as [c i o fs]. unfold calm. cbn [faults conn stdin stdout].
  intros Hfs. unfold initialize_db, bootstrap.
  calm_step. calm_step.
  destruct (decide (size (member (view c)) = 0%nat));
    calm_step; calm_step;
    match goal with |- context [decide (size (book ?d) = 0%nat)] =>
      destruct (decide (size (book d) = 0%nat)) end;
    calm_step; calm_step;
    match goal with |- context [decide (length (sale ?d) = 0%nat)] =>
      destruct (decide (length (sale d) = 0%nat)) end;
    calm_step; rewrite commit_calm by calm_solve;
    cbn [fst snd conn stdin stdout faults]; repeat split; calm_solve.
Qed.

Lemma size_seed_members : size seed_members = 3%nat.
Proof. reflexivity. Qed.

Lemma size_seed_books : size seed_books = 3%nat.
Proof. reflexivity. Qed.

Lemma max_sid_snoc rows s :
  Sql.max_sid (rows ++ [s]) = Z.max (Sql.max_sid rows) (Z.max (sid s) 0).
Proof. induction rows as [|x l IH]; simpl; [lia|]. rewrite IH. lia. Qed.

(** Each insert takes the key after the one before. *)
Lemma next_sid_insert_sale d m b q disc tot db :
  Sql.next_sid (Sql.insert_sale d m b q disc tot db) = Sql.next_sid db + 1.
Proof.
  unfold Sql.next_sid at 1. unfold Sql.insert_sale. simpl.
  rewrite max_sid_snoc. simpl.
  pose proof (max_sid_nonneg (sale db)). unfold Sql.next_sid. lia.
Qed.

Lemma sale_seed_sales db :
  let k := Sql.next_sid db in
  sale (seed_sales db)
  = sale db ++
    [ mkSale k "2024-01-15" "M001" "B001" 2 100 1100;
      mkSale (k + 1) "2024-01-16" "M002" "B002" 1 50 750;
      mkSale (k + 2) "2024-01-17" "M001" "B003" 1 0 1200;
      mkSale (k + 3) "2024-01-18" "M003" "B001" 1 0 600;
      mkSale (k + 4) "2024-01-19" "M002" "B003" 2 150 2250 ] ∧
  sale_seq (seed_sales db) = k + 4 ∧
  member (seed_sales db) = member db ∧ book (seed_sales db) = book db.
Proof.
  intros k. unfold seed_sales.
  cbn [Sql.insert_sale sale sale_seq member book].
  rewrite !next_sid_insert_sale. fold k.
  rewrite <-!app_assoc. cbn [app].
  replace (k + 1 + 1 + 1 + 1) with (k + 4) by lia.
  replace (k + 1 + 1 + 1) with (k + 3) by lia.
  replace (k + 1 + 1) with (k + 2) by lia.
  done.
Qed.

Lemma bootstrap_tables db :
  let db' := bootstrap db in
  member db' = (if decide (member db = ∅) then seed_members else member db) ∧
  book db' = (if decide (book db = ∅) then seed_books else book db) ∧
  (sale db ≠ [] → sale db' = sale db ∧ sale_seq db' = sale_seq db) ∧
  (sale db = [] → sale db' = sale (seed_sales db) ∧
                  sale_seq db' = sale_seq (seed_sales db)).
Proof.
  unfold bootstrap.
  set (db1 := if decide (size (member db) = 0%nat) then _ else _).
  set (db2 := if decide (size (book db1) = 0%nat) then _ else _).
  assert (member db1 = (if decide (member db = ∅) then seed_members else member db)
          ∧ book db1 = book db ∧ sale db1 = sale db ∧ sale_seq db1 = sale_seq db)
    as (Hm1 & Hb1 & Hs1 & Hq1).
  { subst db1. destruct (decide (size (member db) = 0%nat)) as [He|He].
    - apply map_size_empty_iff in He. rewrite decide_True by done.
      simpl. rewrite He. by rewrite (right_id_L ∅ (∪)).
    - rewrite decide_False; [done|]. by rewrite <-map_size_empty_iff. }
  assert (member db2 = member db1
          ∧ book db2 = (if decide (book db = ∅) then seed_books else book db)
          ∧ sale db2 = sale db ∧ sale_seq db2 = sale_seq db)
    as (Hm2 & Hb2 & Hs2 & Hq2).
  { subst db2. destruct (decide (size (book db1) = 0%nat)) as [He|He].
    - apply map_size_empty_iff in He. rewrite Hb1 in He.
      rewrite decide_True by done.
      simpl. rewrite Hb1, He. by rewrite (right_id_L ∅ (∪)).
    - rewrite decide_False; [done|]. by rewrite <-map_size_empty_iff, <-Hb1. }
  assert (seed_sales db2 = mkDB (member db2) (book db2) (sale (seed_sales db))
                                (sale_seq (seed_sales db))) as Hseed.
  { unfold seed_sales, Sql.insert_sale, Sql.next_sid. simpl.
    by rewrite Hs2, Hq2. }
  destruct (decide (length (sale db2) = 0%nat)) as [He|He].
  - apply nil_length_inv in He. rewrite Hs2 in He.
    rewrite Hseed. simpl. rewrite Hm2, Hm1, Hb2.
    repeat split; try done.
  - rewrite Hm2, Hm1, Hb2, Hs2, Hq2. repeat split; try done.
    all: exfalso; apply He; rewrite Hs2;
      by match goal with H : sale _ = [] |- _ => rewrite H end.
Qed.

(** After the bootstrap no table is empty. *)
Lemma bootstrap_full db :
  let db' := bootstrap db in
  size (member db') ≠ 0%nat ∧ size (book db') ≠ 0%nat ∧ length (sale db') ≠ 0%nat.
Proof.
  destruct (bootstrap_tables db) as (Hm & Hb & Hs & Hs').
  intros db'. fold db' in Hm, Hb, Hs, Hs'. rewrite Hm, Hb.
  split; [|split].
  - destruct (decide (member db = ∅)) as [He|He];
      [by rewrite size_seed_members|].
    by rewrite map_size_empty_iff.
  - destruct (decide (book db = ∅)) as [He|He];
      [by rewrite size_seed_books|].
    by rewrite map_size_empty_iff.
  - destruct (sale db) as [|s l] eqn:E.
    + destruct (Hs' eq_refl) as [-> _].
      destruct (sale_seed_sales db) as [-> _]. rewrite length_app. simpl. lia.
    + destruct Hs as [-> _]; done.
Qed.

Lemma bootstrap_fixed db :
  size (member db) ≠ 0%nat → size (book db) ≠ 0%nat → length (sale db) ≠ 0%nat →
  bootstrap db = db.
Proof.
  intros Hm Hb Hs. unfold bootstrap.
  destruct (decide (size (member db) = 0%nat)); [done|]. cbv zeta.
  destruct (decide (size (book db) = 0%nat)); [done|].
  by destruct (decide (length (sale db) = 0%nat)).
Qed.

Lemma seed_members_dom_union (m : gmap string Member) :
  dom seed_members ⊆ dom (seed_members ∪ m).
Proof. rewrite dom_union_L. apply union_subseteq_l. Qed.

Lemma seed_books_dom_union (m : gmap string Book) :
  dom seed_books ⊆ dom (seed_books ∪ m).
Proof. rewrite dom_union_L. apply union_subseteq_l. Qed.

Lemma seeds_or_empty_present {V} (seed table : gmap string V) :
  seeds_or_empty seed table → size table ≠ 0%nat → dom seed ⊆ dom table.
Proof.
  intros [->|H] Hsize; [|done]. by rewrite map_size_empty in Hsize.
Qed.

Lemma referential_no_member db : referential db → member db = ∅ → sale db = [].
Proof.
  unfold referential. intros H He. destruct (sale db) as [|s l]; [done|].
  apply Forall_cons in H as [[[m Hm] _] _]. by rewrite He, lookup_empty in Hm.
Qed.

Lemma referential_no_book db : referential db → book db = ∅ → sale db = [].
Proof.
  unfold referential. intros H He. destruct (sale db) as [|s l]; [done|].
  apply Forall_cons in H as [[_ [b Hb]] _]. by rewrite He, lookup_empty in Hb.
Qed.

Lemma stock_ok_seed_books : map_Forall (λ _ b, 0 ≤ bstock b) seed_books.
Proof.
  apply (bool_decide_unpack (map_Forall (λ _ b, 0 ≤ bstock b) seed_books)).
  vm_compute. reflexivity.
Qed.

Lemma store_ok_insert_seed_members db :
  store_ok db → member db = ∅ →
  store_ok (insert_seed_members db) ∧
  dom seed_members ⊆ dom (member (insert_seed_members db)).
Proof.
  intros ((Hk & Hr) & Hstock & Hseq & Hms & Hbs) He.
  pose proof (referential_no_member db Hr He) as Hnil.
  split; [|apply seed_members_dom_union].
  split; [|split; [|split; [|split]]]; try done.
  - split; [done|]. unfold referential, insert_seed_members. simpl.
    rewrite Hnil. constructor.
  - right. apply seed_members_dom_union.
Qed.

Lemma store_ok_insert_seed_books db :
  store_ok db → book db = ∅ →
  store_ok (insert_seed_books db) ∧
  dom seed_books ⊆ dom (book (insert_seed_books db)).
Proof.
  intros ((Hk & Hr) & Hstock & Hseq & Hms & Hbs) He.
  pose proof (referential_no_book db Hr He) as Hnil.
  split; [|apply seed_books_dom_union].
  split; [|split; [|split; [|split]]]; try done.
  - split; [done|]. unfold referential, insert_seed_books. simpl.
    rewrite Hnil. constructor.
  - unfold stock_ok, insert_seed_books. simpl. rewrite He.
    rewrite (right_id_L ∅ (∪)). apply stock_ok_seed_books.
  - right. apply seed_books_dom_union.
Qed.

Lemma store_ok_insert_sale d m b q disc tot db :
  is_Some (member db !! m) → is_Some (book db !! b) →
  store_ok db → store_ok (Sql.insert_sale d m b q disc tot db).
Proof.
  intros Hm Hb (Hwf & Hstock & Hseq & Hms & Hbs).
  split; [|split; [|split; [|split]]]; try done.
  - by apply SqlFacts.wf_insert_sale.
  - by apply seq_ok_insert_sale.
Qed.

Lemma store_ok_seed_sales db :
  store_ok db →
  dom seed_members ⊆ dom (member db) → dom seed_books ⊆ dom (book db) →
  store_ok (seed_sales db).
Proof.
  intros Hok Hm Hb.
  assert (∀ k, is_Some (seed_members !! k) → is_Some (member db !! k)) as HM.
  { intros k Hk. apply elem_of_dom, Hm. by apply elem_of_dom. }
  assert (∀ k, is_Some (seed_books !! k) → is_Some (book db !! k)) as HB.
  { intros k Hk. apply elem_of_dom, Hb. by apply elem_of_dom. }
  unfold seed_sales.
  repeat (apply store_ok_insert_sale;
          [apply HM; by eexists | apply HB; by eexists |]).
  exact Hok.
Qed.

Lemma conn_ok_idle_view c : conn_ok c → view c = disk c.
Proof. intros [H _]. by apply idle_view. Qed.

Lemma conn_ok_mk db : store_ok db → conn_ok (mkConn db None).
Proof. by split. Qed.

(** One step of the bootstrap: count the rows, fill the table if there is
    none, go on. *)
Lemma triple_seed_step {B} (I K : Conn → Prop) (count : DB → nat) (f : DB → DB)
    (rest : M B) Q E :
  (∀ c, I c → E c) →
  (∀ c, I c → count (view c) = 0%nat → K (mkConn (f (view c)) None)) →
  (∀ c, I c → count (view c) ≠ 0%nat → K c) →
  triple K rest Q E →
  triple I (n ← execute_select count;
            (if decide (n = 0%nat) then executescript f else mret tt);; rest) Q E.
Proof.
  intros HE Hfill Hskip Hrest.
  eapply (triple_bind _ _ _ (λ n c, I c ∧ n = count (view c))).
  { eapply triple_conseq; [apply (triple_select I)|auto..]. }
  intros n. eapply (triple_bind _ _ _ (λ _, K)); [|intros _; exact Hrest].
  destruct (decide (n = 0%nat)) as [Hn|Hn].
  - eapply triple_conseq; [apply triple_executescript|..].
    + intros c Hc. exact Hc.
    + intros _ c' (c & [Hc ->] & ->). by apply Hfill.
    + intros c [Hc _]. by apply HE.
  - apply triple_ret. intros c [Hc ->]. by apply Hskip.
Qed.

(** Whatever fails, the bootstrap leaves a store in order and nothing
    pending. *)
Lemma keeps_conn_ok_initialize_db : keeps conn_ok initialize_db.
Proof.
  apply leads_triple. unfold initialize_db.
  eapply (triple_bind _ _ _ (λ _, conn_ok)).
  { eapply triple_conseq; [apply (triple_executescript conn_ok)|auto..].
    intros _ c' (c & Hc & ->). rewrite (conn_ok_idle_view c Hc).
    apply conn_ok_mk, Hc. }
  intros _.
  apply (triple_seed_step conn_ok
           (λ c, conn_ok c ∧ dom seed_members ⊆ dom (member (disk c)))); [done|..].
  { intros c Hc Hn. rewrite (conn_ok_idle_view c Hc) in *.
    apply map_size_empty_iff in Hn.
    destruct (store_ok_insert_seed_members (disk c)) as [Hok Hdom];
      [apply Hc|done|]. split; [by apply conn_ok_mk|done]. }
  { intros c Hc Hn. rewrite (conn_ok_idle_view c Hc) in *.
    split; [done|]. apply seeds_or_empty_present; [apply Hc|done]. }
  apply (triple_seed_step _
           (λ c, conn_ok c ∧ dom seed_members ⊆ dom (member (disk c))
                 ∧ dom seed_books ⊆ dom (book (disk c)))); [by intros c [? _]|..].
  { intros c [Hc Hm] Hn. rewrite (conn_ok_idle_view c Hc) in *.
    apply map_size_empty_iff in Hn.
    destruct (store_ok_insert_seed_books (disk c)) as [Hok Hdom];
      [apply Hc|done|]. split; [by apply conn_ok_mk|done]. }
  { intros c [Hc Hm] Hn. rewrite (conn_ok_idle_view c Hc) in *.
    split; [done|]. split; [done|].
    apply seeds_or_empty_present; [apply Hc|done]. }
  apply (triple_seed_step _ conn_ok); [by intros c [? _]|..].
  { intros c (Hc & Hm & Hb) Hn. rewrite (conn_ok_idle_view c Hc) in *.
    apply conn_ok_mk, store_ok_seed_sales; [apply Hc|done..]. }
  { by intros c [Hc _] _. }
  eapply triple_conseq; [apply (triple_commit conn_ok)|auto..].
  intros _ c' (c & Hc & ->). rewrite (conn_ok_idle_view c Hc).
  apply conn_ok_mk, Hc.
Qed.

(** ** Every operation keeps the store in order *)

Lemma keeps_conn_ok_add_sale sdate m b q disc :
  keeps conn_ok (add_sale sdate m b q disc).
Proof.
  intros w Hw. pose proof (conn_ok_idle_view _ Hw) as Hview.
  destruct (add_sale_cases sdate m b q disc w) as (_ & _ & Hcases).
  destruct Hcases as [(msg & _ & [-> | ->])|(mem & bk & Hm & Hb & Hq & _ & ->)].
  - done.
  - apply conn_ok_mk, Hw.
  - apply conn_ok_mk. rewrite Hview in *.
    eapply (store_ok_sale_writes sdate m b q disc); eauto. apply Hw.
Qed.

#[export] Hint Resolve keeps_conn_ok_add_sale keeps_print_sale_report : keeps.

Section KeepsOperations.

Variable py_int : string → option Z.
Variable py_strip : string → string.
Variable re_fullmatch : string → string → bool.

Lemma keeps_conn_ok_add_new_sale : keeps conn_ok (add_new_sale py_int re_fullmatch).
Proof. unfold add_new_sale. keeps_tac; eauto with keeps. Qed.

Lemma keeps_conn_ok_update_sale_record :
  keeps conn_ok (update_sale_record py_int py_strip).
Proof.
  apply leads_update_sale_record; [done|..].
  - intros c Hc. apply conn_ok_mk, Hc.
  - intros c nd tot k Hc. rewrite (conn_ok_idle_view c Hc).
    apply conn_ok_mk, store_ok_update_sale, Hc.
Qed.

Lemma keeps_conn_ok_delete_sale_record :
  keeps conn_ok (delete_sale_record py_int py_strip).
Proof.
  apply leads_delete_sale_record; [done|..].
  - intros c Hc. apply conn_ok_mk, Hc.
  - intros c k Hc. rewrite (conn_ok_idle_view c Hc).
    apply conn_ok_mk, store_ok_delete_sale, Hc.
Qed.

Lemma keeps_print_menu (I : Conn → Prop) : keeps I print_menu.
Proof. unfold print_menu. keeps_tac. Qed.

Lemma keeps_conn_ok_menu_round :
  keeps conn_ok (menu_round py_int py_strip re_fullmatch).
Proof.
  unfold menu_round. keeps_tac;
    first [ apply keeps_print_menu
          | apply keeps_conn_ok_add_new_sale
          | apply keeps_print_sale_report
          | apply keeps_conn_ok_update_sale_record
          | apply keeps_conn_ok_delete_sale_record ].
Qed.

(** From a committed store in order, whatever is pending, [main] ends on a
    store in order with nothing pending. *)
Lemma leads_main :
  leads (λ c, store_ok (disk c)) conn_ok (main py_int py_strip re_fullmatch).
Proof.
  apply leads_triple. unfold main.
  eapply (triple_bind _ _ _ (λ _, conn_ok)).
  { intros w Hw. cbn. by apply conn_ok_mk. }
  intros _. apply triple_leads.
  keeps_tac.
  - apply keeps_conn_ok_initialize_db.
  - apply keeps_conn_ok_menu_round.
  - intros w Hw. cbn. apply conn_ok_mk, Hw.
Qed.

End KeepsOperations.

(** ** The menu loop ends *)

Lemma bounded_update_conn f : bounded (update_conn f).
Proof. intros w. by split. Qed.

Lemma bounded_executescript f : bounded (executescript f).
Proof. intros [c i o [|[] fs]]; by split. Qed.

Lemma bounded_initialize_db : bounded initialize_db.
Proof.
  unfold initialize_db.
  repeat first [ apply bounded_executescript | bounded_step ].
Qed.

Lemma bounded_print_menu : bounded print_menu.
Proof. unfold print_menu. bounded_tac. Qed.

(** What comes before a computation that reads a line does not undo it. *)
Lemma bounded_reading_bind {A B} (m : M A) (f : A → M B) :
  bounded m → (∀ a, reading (f a)) → reading (m ≫= f).
Proof.
  intros Hm Hf. split; [apply bounded_bind; [done|intros a; apply Hf]|].
  intros w b. destruct (Hm w) as [_ Hlen]. unfold mbind, M_bind.
  destruct (m w) as [[a|e|] w']; simpl in *; [|done..].
  intros Hb. destruct (Hf a) as [_ Hr]. specialize (Hr w' b Hb). lia.
Qed.

Section BoundedMenu.

Variable py_int : string → option Z.
Variable py_strip : string → string.
Variable re_fullmatch : string → string → bool.

Lemma reading_menu_round : reading (menu_round py_int py_strip re_fullmatch).
Proof.
  unfold menu_round.
  apply bounded_reading_bind; [apply bounded_print_menu|]. intros _.
  apply reading_bind.
  { split.
    - apply bounded_fmap, reading_input.
    - intros w a. destruct (reading_input "請選擇操作項目(Enter 離開)：") as [_ Hr].
      specialize (Hr w). unfold fmap, M_fmap.
      destruct (input _ w) as [[s|e|] w']; simpl in *; [|done..].
      intros _. by apply (Hr s). }
  intros choice. bounded_tac;
    first [ apply bounded_add_new_sale
          | apply bounded_print_sale_report
          | apply bounded_update_sale_record
          | apply bounded_delete_sale_record ].
Qed.

Lemma bounded_main : bounded (main py_int py_strip re_fullmatch).
Proof.
  unfold main, connect_db, close.
  repeat first [ apply bounded_update_conn | apply bounded_initialize_db
               | apply reading_menu_round | bounded_step ].
Qed.

End BoundedMenu.

(** ** The prompts *)

Section Prompts.

Variable py_int : string → option Z.

Lemma get_valid_integer_input_blank prompt c rest o fs :
  get_valid_integer_input py_int prompt (mkWorld c ("" :: rest) o fs)
  = (Ok None, mkWorld c rest (o ++ [Prompt prompt]) fs).
Proof.
  unfold get_valid_integer_input, loop. cbn [stdin length]. rewrite while_true_S.
  erewrite bind_ok.
  2:{ erewrite bind_ok by apply input_run. cbv beta iota.
      rewrite decide_True by done. reflexivity. }
  reflexivity.
Qed.

Lemma get_valid_integer_input_eof prompt c o fs :
  get_valid_integer_input py_int prompt (mkWorld c [] o fs)
  = (Raise EOFError, mkWorld c [] (o ++ [Prompt prompt]) fs).
Proof. reflexivity. Qed.

Lemma get_valid_integer_input_retry prompt l c rest o fs :
  l ≠ "" → py_int l = None →
  get_valid_integer_input py_int prompt (mkWorld c (l :: rest) o fs)
  = get_valid_integer_input py_int prompt
      (mkWorld c rest (o ++ [Prompt prompt; Line err_not_integer]) fs).
Proof.
  intros Hl Hn. unfold get_valid_integer_input, loop.
  cbn [stdin length]. rewrite while_true_S.
  erewrite bind_ok.
  2:{ erewrite bind_ok by apply input_run. cbv beta iota.
      rewrite decide_False by done.
      erewrite bind_ok.
      2:{ unfold try_except, int_. rewrite Hn. unfold raise.
          rewrite decide_True by done. reflexivity. }
      cbv beta iota.
      erewrite bind_ok by apply print_run. reflexivity. }
  cbv beta iota. by rewrite <-app_assoc.
Qed.

Lemma get_valid_integer_input_skip prompt bad c rest o fs :
  Forall (λ l, l ≠ "" ∧ py_int l = None) bad →
  get_valid_integer_input py_int prompt (mkWorld c (bad ++ rest) o fs)
  = get_valid_integer_input py_int prompt
      (mkWorld c rest (o ++ refused prompt err_not_integer bad) fs).
Proof.
  intros Hbad. revert o. induction Hbad as [|l bad [Hl Hn] _ IH]; intros o.
  - unfold refused. simpl. by rewrite app_nil_r.
  - cbn [app]. rewrite get_valid_integer_input_retry by done.
    rewrite IH. unfold refused. rewrite bind_cons. by rewrite <-app_assoc.
Qed.

Lemma get_valid_non_negative_integer_input_blank prompt c rest o fs :
  get_valid_non_negative_integer_input py_int prompt (mkWorld c ("" :: rest) o fs)
  = (Ok None, mkWorld c rest (o ++ [Prompt prompt]) fs).
Proof.
  unfold get_valid_non_negative_integer_input, loop.
  cbn [stdin length]. rewrite while_true_S.
  erewrite bind_ok.
  2:{ erewrite bind_ok by apply get_valid_integer_input_blank. reflexivity. }
  reflexivity.
Qed.

Lemma get_valid_positive_integer_input_blank prompt c rest o fs :
  get_valid_positive_integer_input py_int prompt (mkWorld c ("" :: rest) o fs)
  = (Ok None, mkWorld c rest (o ++ [Prompt prompt]) fs).
Proof.
  unfold get_valid_positive_integer_input, loop.
  cbn [stdin length]. rewrite while_true_S.
  erewrite bind_ok.
  2:{ erewrite bind_ok by apply get_valid_integer_input_blank. reflexivity. }
  reflexivity.
Qed.

Lemma get_valid_non_negative_integer_input_retry prompt s n c rest o fs :
  s ≠ "" → py_int s = Some n → n < 0 →
  get_valid_non_negative_integer_input py_int prompt (mkWorld c (s :: rest) o fs)
  = get_valid_non_negative_integer_input py_int prompt
      (mkWorld c rest (o ++ [Prompt prompt; Line "=> 錯誤：折扣金額不能為負數"]) fs).
Proof.
  intros Hs Hn Hle. unfold get_valid_non_negative_integer_input, loop.
  cbn [stdin length]. rewrite while_true_S.
  erewrite bind_ok.
  2:{ erewrite bind_ok by (by apply get_valid_integer_input_run).
      cbv beta iota. rewrite decide_False by lia.
      erewrite bind_ok by apply print_run. reflexivity. }
  cbv beta iota. by rewrite <-app_assoc.
Qed.

End Prompts.

(** ** Rounds of a loop *)

(** More rounds than needed change nothing. *)
Lemma while_true_more {A} (body : M (option A)) n k w :
  (while_true n body w).1 ≠ OutOfFuel →
  while_true (n + k) body w = while_true n body w.
Proof.
  revert w. induction n as [|n IH]; intros w; [done|].
  cbn [Nat.add]. rewrite !while_true_S. unfold mbind, M_bind.
  destruct (body w) as [[[a|]|e|] w']; simpl; try done.
  apply IH.
Qed.

Lemma while_true_enough {A} (body : M (option A)) n w :
  reading body → (length (stdin w) < n)%nat →
  while_true n body w = loop body w.
Proof.
  intros Hb Hn. unfold loop.
  replace n with (S (length (stdin w)) + (n - S (length (stdin w))))%nat by lia.
  apply while_true_more.
  destruct (while_true_reading body (S (length (stdin w))) w Hb) as [H _];
    [lia|done].
Qed.

(** A round that asks to go on is followed by the loop on what it left. *)
Lemma loop_round {A} (body : M (option A)) w w' :
  reading body → body w = (Ok None, w') → loop body w = loop body w'.
Proof.
  intros Hb Hw. unfold loop at 1. rewrite while_true_S.
  erewrite bind_ok by exact Hw. cbv beta iota.
  apply while_true_enough; [done|].
  destruct Hb as [_ Hr]. specialize (Hr w None). rewrite Hw in Hr.
  simpl in Hr. specialize (Hr eq_refl). lia.
Qed.

(** Two states on which the first round is the same give the same loop. *)
Lemma loop_same_round {A} (body : M (option A)) w1 w2 :
  reading body → body w1 = body w2 → loop body w1 = loop body w2.
Proof.
  intros Hb Heq.
  destruct (body w2) as [[[a|]|e|] w'] eqn:E.
  - unfold loop. rewrite !while_true_S. unfold mbind, M_bind.
    by rewrite Heq, E.
  - rewrite (loop_round body w1 w') by done.
    by rewrite (loop_round body w2 w').
  - unfold loop. rewrite !while_true_S. unfold mbind, M_bind.
    by rewrite Heq, E.
  - unfold loop. rewrite !while_true_S. unfold mbind, M_bind.
    by rewrite Heq, E.
Qed.

Section RangePrompts.

Variable py_int : string → option Z.

Lemma get_valid_non_negative_integer_input_skip prompt l c rest o fs :
  l ≠ "" → py_int l = None →
  get_valid_non_negative_integer_input py_int prompt (mkWorld c (l :: rest) o fs)
  = get_valid_non_negative_integer_input py_int prompt
      (mkWorld c rest (o ++ [Prompt prompt; Line err_not_integer]) fs).
Proof.
  intros Hl Hn. unfold get_valid_non_negative_integer_input.
  apply loop_same_round.
  - apply reading_bind; [apply reading_get_valid_integer_input|].
    intros v. bounded_tac.
  - unfold mbind, M_bind. by rewrite get_valid_integer_input_retry.
Qed.

Lemma get_valid_positive_integer_input_skip prompt l c rest o fs :
  l ≠ "" → py_int l = None →
  get_valid_positive_integer_input py_int prompt (mkWorld c (l :: rest) o fs)
  = get_valid_positive_integer_input py_int prompt
      (mkWorld c rest (o ++ [Prompt prompt; Line err_not_integer]) fs).
Proof.
  intros Hl Hn. unfold get_valid_positive_integer_input.
  apply loop_same_round.
  - apply reading_bind; [apply reading_get_valid_integer_input|].
    intros v. bounded_tac.
  - unfold mbind, M_bind. by rewrite get_valid_integer_input_retry.
Qed.

Lemma get_valid_non_negative_integer_input_eof prompt c o fs :
  get_valid_non_negative_integer_input py_int prompt (mkWorld c [] o fs)
  = (Raise EOFError, mkWorld c [] (o ++ [Prompt prompt]) fs).
Proof. reflexivity. Qed.

Lemma get_valid_positive_integer_input_eof prompt c o fs :
  get_valid_positive_integer_input py_int prompt (mkWorld c [] o fs)
  = (Raise EOFError, mkWorld c [] (o ++ [Prompt prompt]) fs).
Proof. reflexivity. Qed.

End RangePrompts.

(** ** Adding a sale from the terminal *)

Lemma add_sale_answers sdate m b q disc w :
  ∃ ok msg, (add_sale sdate m b q disc w).1 = Ok (ok, msg).
Proof.
  destruct (add_sale_cases sdate m b q disc w) as (_ & _ & Hcases).
  destruct Hcases as [(msg & -> & _)|(mem & bk & _ & _ & _ & -> & _)]; eauto.
Qed.

Section AddNewSale.

Variable py_int : string → option Z.
Variable re_fullmatch : string → string → bool.

Lemma add_new_sale_blank_quantity c sdate m b rest o fs :
  is_valid_date re_fullmatch sdate = true →
  add_new_sale py_int re_fullmatch (mkWorld c (sdate :: m :: b :: "" :: rest) o fs)
  = (Ok tt,
     mkWorld c rest
       (o ++ [Prompt "請輸入銷售日期 (YYYY-MM-DD)："; Prompt "請輸入會員編號：";
              Prompt "請輸入書籍編號："; Prompt "請輸入購買數量："]) fs).
Proof.
  intros Hd. unfold add_new_sale.
  erewrite bind_ok by apply input_run. cbv beta iota.
  rewrite Hd. cbn [negb].
  erewrite bind_ok by apply input_run. cbv beta iota.
  erewrite bind_ok by apply input_run. cbv beta iota.
  erewrite bind_ok by apply get_valid_positive_integer_input_blank.
  cbv beta iota. by rewrite <-!app_assoc.
Qed.

Lemma add_new_sale_blank_discount c sdate m b qs rest o fs (q : Z) :
  is_valid_date re_fullmatch sdate = true →
  qs ≠ "" → py_int qs = Some q → 0 < q →
  add_new_sale py_int re_fullmatch
    (mkWorld c (sdate :: m :: b :: qs :: "" :: rest) o fs)
  = (Ok tt,
     mkWorld c rest
       (o ++ [Prompt "請輸入銷售日期 (YYYY-MM-DD)："; Prompt "請輸入會員編號：";
              Prompt "請輸入書籍編號："; Prompt "請輸入購買數量：";
              Prompt "請輸入折扣金額："]) fs).
Proof.
  intros Hd Hqs Hq Hqpos. unfold add_new_sale.
  erewrite bind_ok by apply input_run. cbv beta iota.
  rewrite Hd. cbn [negb].
  erewrite bind_ok by apply input_run. cbv beta iota.
  erewrite bind_ok by apply input_run. cbv beta iota.
  erewrite bind_ok by (by apply get_valid_positive_integer_input_run).
  cbv beta iota.
  erewrite bind_ok by apply get_valid_non_negative_integer_input_blank.
  cbv beta iota. by rewrite <-!app_assoc.
Qed.

End AddNewSale.

Lemma leads_add_sale_sold c0 sdate m b q disc :
  idle c0 →
  leads (λ c, c = c0)
        (λ c, idle c ∧ (disk c = disk c0 ∨ sold sdate m b q disc (disk c0) (disk c)))
        (add_sale sdate m b q disc).
Proof.
  intros Hidle w Hw.
  destruct (add_sale_cases sdate m b q disc w) as (_ & _ & Hcases).
  rewrite Hw, (idle_view _ Hidle) in Hcases.
  destruct Hcases as [(msg & _ & [-> | ->])|(mem & bk & Hm & Hb & Hq & _ & ->)].
  - split; [done|by left].
  - split; [done|by left].
  - split; [done|]. right. exists bk. eauto.
Qed.

Lemma triple_keeps_weaken {A} (I J : Conn → Prop) (m : M A) Q :
  keeps I m → (∀ c, I c → J c) → (∀ a c, I c → Q a c) → triple I m Q J.
Proof.
  intros Hm HJ HQ. eapply triple_conseq; [apply (triple_leads I I), Hm|auto..].
Qed.

Section CheckedSales.

Variable py_int : string → option Z.
Variable re_fullmatch : string → string → bool.

(** What [add_new_sale] commits is nothing, or a sale whose date, quantity
    and discount passed the checks of the prompts. *)
Lemma leads_add_new_sale_checked c0 :
  idle c0 →
  leads (λ c, c = c0)
        (λ c, idle c ∧
              (disk c = disk c0 ∨
               ∃ sdate m b q disc,
                 is_valid_date re_fullmatch sdate = true ∧ q > 0 ∧ disc >= 0 ∧
                 sold sdate m b q disc (disk c0) (disk c)))
        (add_new_sale py_int re_fullmatch).
Proof.
  intros Hidle. apply leads_triple. unfold add_new_sale.
  set (J := λ c : Conn, idle c ∧ _).
  assert (∀ c, c = c0 → J c) as HIJ.
  { intros c ->. split; [done|by left]. }
  assert (∀ {A} (m : M A), keeps (λ c, c = c0) m →
            triple (λ c, c = c0) m (λ _ c, c = c0) J) as Hkeep.
  { intros A m Hm. apply triple_keeps_weaken; auto. }
  eapply triple_bind; [apply Hkeep, leads_input|]. intros sdate.
  destruct (is_valid_date re_fullmatch sdate) eqn:Hd; cbn [negb].
  2:{ apply triple_keeps_weaken; [apply leads_print|auto..]. }
  eapply triple_bind; [apply Hkeep, leads_input|]. intros m.
  eapply triple_bind; [apply Hkeep, leads_input|]. intros b.
  eapply (triple_bind _ _ _ (λ v c, c = c0 ∧ ∀ n, v = Some n → n > 0)).
  { eapply triple_conseq;
      [apply (triple_answer (λ c, c = c0) _ (λ v, ∀ n, v = Some n → n > 0))|auto..].
    - apply keeps_get_valid_positive_integer_input.
    - intros w v Hv n ->.
      by eapply get_valid_positive_integer_input_positive. }
  intros [q|]; [|apply triple_ret; intros c [-> _]; by apply HIJ].
  eapply (triple_bind _ _ _ (λ v c, (c = c0 ∧ q > 0) ∧ ∀ n, v = Some n → n >= 0)).
  { eapply triple_conseq;
      [apply (triple_answer (λ c, c = c0 ∧ q > 0) _ (λ v, ∀ n, v = Some n → n >= 0))|..].
    - intros w [Hw Hq]. split; [|done].
      by apply (keeps_get_valid_non_negative_integer_input py_int (λ c, c = c0)).
    - intros w v Hv n ->.
      by eapply get_valid_non_negative_integer_input_non_negative.
    - intros c [-> Hq]. split; [done|]. by apply Hq.
    - auto.
    - intros c [-> _]. by apply HIJ. }
  intros [disc|]; [|apply triple_ret; intros c [[-> _] _]; by apply HIJ].
  eapply (triple_bind _ _ _ (λ _, J)).
  - intros w [[Hw Hq] Hdisc].
    pose proof (leads_add_sale_sold c0 sdate m b q disc Hidle w Hw) as [Hi Hs].
    assert (J (conn (add_sale sdate m b q disc w).2)) as HJ.
    { split; [done|]. destruct Hs as [?|Hs]; [by left|right].
      exists sdate, m, b, q, disc. repeat split; auto. }
    by destruct (add_sale sdate m b q disc w).1.
  - intros [ok msg]. apply triple_leads, leads_print.
Qed.

End CheckedSales.

(** ** Updating and deleting from the terminal *)

Section ListOperations.

Variable py_int : string → option Z.
Variable py_strip : string → string.

Lemma update_sale_record_nothing_listed c i o fs :
  Forall (λ b, b = false) fs →
  Sql.select_picks (view c) = [] →
  update_sale_record py_int py_strip (mkWorld c i o fs)
  = (Ok tt, mkWorld c i (o ++ [Line msg_nothing_to_update]) (tail fs)).
Proof.
  intros Hfs Hnil. unfold update_sale_record.
  erewrite bind_ok by (by apply execute_select_calm). cbv beta iota.
  rewrite Hnil. apply print_run.
Qed.

Lemma delete_sale_record_nothing_listed c i o fs :
  Forall (λ b, b = false) fs →
  Sql.select_picks (view c) = [] →
  delete_sale_record py_int py_strip (mkWorld c i o fs)
  = (Ok tt, mkWorld c i (o ++ [Line msg_nothing_to_delete]) (tail fs)).
Proof.
  intros Hfs Hnil. unfold delete_sale_record.
  erewrite bind_ok by (by apply execute_select_calm). cbv beta iota.
  rewrite Hnil. apply print_run.
Qed.

Lemma update_sale_record_blank_choice c choice rest o fs :
  Forall (λ b, b = false) fs →
  Sql.select_picks (view c) ≠ [] →
  py_strip choice = "" →
  let r := update_sale_record py_int py_strip (mkWorld c (choice :: rest) o fs) in
  r.1 = Ok tt ∧ conn r.2 = c ∧ stdin r.2 = rest ∧
  last (stdout r.2) = Some (Prompt prompt_update).
Proof.
  intros Hfs Hne Hc r. subst r. unfold update_sale_record.
  erewrite bind_ok by (by apply execute_select_calm). cbv beta iota.
  destruct (Sql.select_picks (view c)) as [|p0 picks] eqn:Hpicks; [done|].
  destruct (print_picks_run (p0 :: picks) c (choice :: rest) o (tail fs))
    as [out Hout].
  erewrite bind_ok by exact Hout. cbv beta iota.
  erewrite bind_ok by (apply fmap_ok, input_run). cbv beta iota.
  rewrite decide_True by done. cbn. by rewrite last_snoc.
Qed.

Lemma delete_sale_record_blank_choice c choice rest o fs :
  Forall (λ b, b = false) fs →
  Sql.select_picks (view c) ≠ [] →
  py_strip choice = "" →
  let r := delete_sale_record py_int py_strip (mkWorld c (choice :: rest) o fs) in
  r.1 = Ok tt ∧ conn r.2 = c ∧ stdin r.2 = rest ∧
  last (stdout r.2) = Some (Prompt prompt_delete).
Proof.
  intros Hfs Hne Hc r. subst r. unfold delete_sale_record.
  erewrite bind_ok by (by apply execute_select_calm). cbv beta iota.
  destruct (Sql.select_picks (view c)) as [|p0 picks] eqn:Hpicks; [done|].
  destruct (print_picks_run (p0 :: picks) c (choice :: rest) o (tail fs))
    as [out Hout].
  erewrite bind_ok by exact Hout. cbv beta iota.
  erewrite bind_ok by (apply fmap_ok, input_run). cbv beta iota.
  rewrite decide_True by done. cbn. by rewrite last_snoc.
Qed.

(** The update up to the discount prompt, for a choice in the list. *)
Lemma update_sale_record_blank_discount c choice rest o fs (idx : Z) (p : Sql.Pick) :
  Forall (λ b, b = false) fs →
  1 ≤ idx → Sql.select_picks (view c) !! Z.to_nat (idx - 1) = Some p →
  py_strip choice ≠ "" → py_int (py_strip choice) = Some idx →
  let r := update_sale_record py_int py_strip
             (mkWorld c (choice :: "" :: rest) o fs) in
  r.1 = Ok tt ∧ conn r.2 = c ∧ stdin r.2 = rest ∧
  last (stdout r.2) = Some (Prompt prompt_discount).
Proof.
  intros Hfs Hidx Hp Hc1 Hc2 r. subst r.
  pose proof (lookup_lt_Some _ _ _ Hp) as Hlen.
  unfold update_sale_record.
  erewrite bind_ok by (by apply execute_select_calm). cbv beta iota.
  destruct (Sql.select_picks (view c)) as [|p0 picks] eqn:Hpicks; [done|].
  destruct (print_picks_run (p0 :: picks) c (choice :: "" :: rest) o (tail fs))
    as [out Hout].
  erewrite bind_ok by exact Hout. cbv beta iota.
  erewrite bind_ok by (apply fmap_ok, input_run). cbv beta iota.
  rewrite decide_False by done.
  erewrite bind_ok by (apply parse_choice_ok; [exact Hc2 | lia]). cbv beta iota.
  erewrite bind_ok.
  2:{ apply fmap_ok. unfold nth_pick. rewrite Hp. reflexivity. }
  cbv beta iota.
  erewrite bind_ok by (apply execute_select_calm; calm_solve). cbv beta iota.
  erewrite bind_ok by apply get_valid_non_negative_integer_input_blank.
  cbv beta iota. cbn. by rewrite last_snoc.
Qed.

End ListOperations.

(** ** The selection list *)

Section Picks.
Import Sql.

Lemma join_member_set_discount db db' k disc tot s :
  member db' = member db →
  join_member db' (set_discount k disc tot s) = join_member db s.
Proof.
  intros Hm. unfold join_member, set_discount. rewrite Hm.
  by case_decide.
Qed.

Lemma omap_join_member_set_discount db db' k disc tot (l : list Sale) :
  member db' = member db →
  omap (join_member db') (set_discount k disc tot <$> l) = omap (join_member db) l.
Proof.
  intros Hm. induction l as [|s l IH]; [done|].
  cbn [fmap list_fmap omap list_omap].
  rewrite (join_member_set_discount db) by done.
  destruct (join_member db s); cbn; by rewrite IH.
Qed.

(** An update leaves the selection list as it is. *)
Lemma select_picks_update_sale disc tot k db :
  select_picks (update_sale disc tot k db) = select_picks db.
Proof.
  unfold select_picks, update_sale. cbn [sale]. f_equal.
  by apply omap_join_member_set_discount.
Qed.

Lemma update_sale_update_sale d1 t1 d2 t2 k db :
  update_sale d2 t2 k (update_sale d1 t1 k db) = update_sale d2 t2 k db.
Proof.
  unfold update_sale. cbn. f_equal. rewrite <-list_fmap_compose.
  apply list_fmap_ext. intros i s _. cbn. unfold set_discount.
  destruct (decide (sid s = k)); cbn; [by rewrite decide_True|by rewrite decide_False].
Qed.

Lemma select_sale_update_sale disc tot db s :
  keyed db → s ∈ sale db →
  select_sale (sid s) (update_sale disc tot (sid s) db)
  = Some (mkSale (sid s) (sdate s) (mid s) (bid s) (sqty s) disc tot).
Proof.
  intros Hk Hs.
  assert (keyed (update_sale disc tot (sid s) db)) as Hk'.
  { unfold keyed, update_sale. cbn. rewrite <-list_fmap_compose.
    erewrite list_fmap_ext; [exact Hk|]. intros; cbn. apply SqlFacts.sid_set_discount. }
  set (s' := mkSale (sid s) (sdate s) (mid s) (bid s) (sqty s) disc tot).
  change (sid s) with (sid s') at 1.
  apply SqlFacts.select_sale_keyed; [done|].
  unfold update_sale. cbn. apply list_elem_of_fmap. exists s. split; [|done].
  unfold set_discount. by rewrite decide_True.
Qed.

(** Under the references the list has a line for each sale. *)
Lemma length_select_picks db :
  referential db → length (select_picks db) = length (sale db).
Proof.
  intros Hr. unfold select_picks. rewrite SqlFacts.length_order_by.
  apply length_omap_total. eapply Forall_impl; [exact Hr|].
  intros s [[m Hm] _]. unfold join_member. rewrite Hm. by eexists.
Qed.

(** After a sale was added the list is the list of before, then the new
    sale. *)
Lemma select_picks_sale_writes db sdate m b q disc tot mem :
  member db !! m = Some mem →
  select_picks (sale_writes sdate m b q disc tot db)
  = select_picks db ++ [mkPick (next_sid db) (mname mem) sdate].
Proof.
  intros Hm. unfold select_picks, sale_writes, update_book_stock, insert_sale.
  cbn [sale member].
  assert (∀ l : list Sale, omap (join_member
                       (mkDB (member db) (alter (dec_stock q) b (book db))
                             (sale db ++ [mkSale (next_sid db) sdate m b q disc tot])
                             (next_sid db))) l
               = omap (join_member db) l) as Hjoin.
  { intros l. induction l as [|s l IH]; [done|]. cbn. by rewrite IH. }
  rewrite Hjoin, omap_app. cbn. unfold join_member at 2. cbn. rewrite Hm. cbn.
  rewrite SqlFacts.order_by_snoc. apply SqlFacts.insert_by_last.
  rewrite Forall_forall. intros p Hp.
  apply SqlFacts.elem_of_order_by, list_elem_of_omap in Hp as (s & Hs & Hjs).
  apply SqlFacts.sid_lt_next in Hs. cbn.
  unfold join_member in Hjs.
  destruct (member db !! mid s); simplify_eq/=. lia.
Qed.

End Picks.

(** ** The fault plan is used from the front *)

Section Spends.

Lemma spends_ret {A} (a : A) : spends (mret a : M A).
Proof. intros w. by exists 0%nat. Qed.

Lemma spends_raise {A} (e : exn) : spends (raise e : M A).
Proof. intros w. by exists 0%nat. Qed.

Lemma spends_print s : spends (print s).
Proof. intros w. by exists 0%nat. Qed.

Lemma spends_input s : spends (input s).
Proof. intros [c [|l i] o fs]; by exists 0%nat. Qed.

Lemma spends_update_conn f : spends (update_conn f).
Proof. intros w. by exists 0%nat. Qed.

Lemma spends_sqlite_call : spends sqlite_call.
Proof. intros [c i o [|[] fs]]; [by exists 0%nat|by exists 1%nat..]. Qed.

Lemma spends_bind {A B} (m : M A) (f : A → M B) :
  spends m → (∀ a, spends (f a)) → spends (m ≫= f).
Proof.
  intros Hm Hf w. destruct (Hm w) as [n Hn].
  unfold mbind, M_bind. destruct (m w) as [[a|e|] w']; simpl in *; eauto.
  destruct (Hf a w') as [k Hk]. exists (n + k)%nat.
  by rewrite Hk, Hn, drop_drop.
Qed.

Lemma spends_fmap {A B} (g : A → B) (m : M A) : spends m → spends (g <$> m).
Proof.
  intros Hm w. destruct (Hm w) as [n Hn].
  unfold fmap, M_fmap. destruct (m w) as [[a|e|] w']; eauto.
Qed.

Lemma spends_try_except {A} (e : exn) (m : M A) :
  spends m → spends (try_except e m).
Proof.
  intros Hm w. destruct (Hm w) as [n Hn].
  unfold try_except. destruct (m w) as [[a|e'|] w']; simpl in *; eauto.
  destruct (decide (e' = e)); eauto.
Qed.

Lemma spends_while_true {A} (body : M (option A)) fuel :
  spends body → spends (while_true fuel body).
Proof.
  intros Hb. induction fuel as [|n IH]; cbn [while_true].
  - intros w. by exists 0%nat.
  - apply spends_bind; [exact Hb|]. intros [a|]; [apply spends_ret | exact IH].
Qed.

Lemma spends_loop {A} (body : M (option A)) : spends body → spends (loop body).
Proof. intros Hb w. unfold loop. by apply spends_while_true. Qed.

Lemma spends_for_each {A} (l : list A) (body : A → M unit) :
  (∀ x, spends (body x)) → spends (for_each l body).
Proof.
  intros Hb. induction l as [|x l IH]; cbn [for_each].
  - apply spends_ret.
  - apply spends_bind; [apply Hb | intros _; exact IH].
Qed.

Lemma spends_calm {A} (m : M A) w : spends m → calm w → calm (m w).2.
Proof.
  intros Hm Hw. destruct (Hm w) as [n Hn]. unfold calm in *.
  rewrite Hn. by apply Forall_drop.
Qed.

End Spends.

Ltac spends_step :=
  match goal with
  | |- spends (match ?x with _ => _ end) => destruct x
  | |- spends (let '(_, _) := ?x in _) => destruct x
  | |- spends (_ ≫= _) => apply spends_bind; [|intros ?]
  | |- spends (_ <$> _) => apply spends_fmap
  | |- spends (try_except _ _) => apply spends_try_except
  | |- spends (for_each _ _) => apply spends_for_each; intros ?
  | |- spends (loop _) => apply spends_loop
  | |- spends (mret _) => apply spends_ret
  | |- spends (raise _) => apply spends_raise
  | |- spends (print _) => apply spends_print
  | |- spends (input _) => apply spends_input
  | |- spends sqlite_call => apply spends_sqlite_call
  | |- spends (update_conn _) => apply spends_update_conn
  | |- spends (read_view _) => intros ?; by exists 0%nat
  end.

Ltac spends_tac :=
  repeat first [ spends_step
               | progress unfold execute_select, execute_write, commit, rollback,
                   executescript, int_, subscript, nth_pick, parse_choice,
                   print_picks, print_pick, print_sale, update_txn, delete_txn,
                   get_valid_integer_input, get_valid_positive_integer_input,
                   get_valid_non_negative_integer_input ].

Section SpendsProgram.

Variable py_int : string → option Z.
Variable py_strip : string → string.
Variable re_fullmatch : string → string → bool.

Lemma spends_add_sale sdate m b q disc : spends (add_sale sdate m b q disc).
Proof. unfold add_sale. spends_tac. Qed.

Lemma spends_add_new_sale : spends (add_new_sale py_int re_fullmatch).
Proof. unfold add_new_sale. spends_tac. apply spends_add_sale. Qed.

Lemma spends_print_sale_report : spends print_sale_report.
Proof. unfold print_sale_report. spends_tac. Qed.

Lemma spends_update_sale_record : spends (update_sale_record py_int py_strip).
Proof. unfold update_sale_record. spends_tac. Qed.

Lemma spends_delete_sale_record : spends (delete_sale_record py_int py_strip).
Proof. unfold delete_sale_record. spends_tac. Qed.

End SpendsProgram.

(** ** A sale added, then deleted *)

Lemma filter_sid_above (k : Z) (l : list Sale) :
  Sql.max_sid l < k → filter (λ s, sid s ≠ k) l = l.
Proof.
  intros Hk. induction l as [|s l IH]; [done|].
  simpl in Hk. rewrite filter_cons.
  destruct (decide (sid s ≠ k)) as [_|Heq]; [|lia].
  rewrite IH; [done|lia].
Qed.

Lemma filter_sid_absent (k : Z) (l : list Sale) :
  Sql.max_sid l < k → filter (λ s, sid s = k) l = [].
Proof.
  intros Hk. induction l as [|s l IH]; [done|].
  simpl in Hk. rewrite filter_cons.
  destruct (decide (sid s = k)) as [Heq|_]; [lia|]. apply IH. lia.
Qed.

Lemma max_sid_below_next db : Sql.max_sid (sale db) < Sql.next_sid db.
Proof. unfold Sql.next_sid. lia. Qed.

Lemma delete_sale_sale_writes sdate m b q disc tot db :
  Sql.delete_sale (Sql.next_sid db) (sale_writes sdate m b q disc tot db)
  = mkDB (member db) (alter (Sql.dec_stock q) b (book db)) (sale db) (Sql.next_sid db).
Proof.
  unfold Sql.delete_sale, sale_writes, Sql.update_book_stock, Sql.insert_sale.
  cbn [member book sale sale_seq]. f_equal.
  rewrite filter_app, filter_sid_above by apply max_sid_below_next.
  rewrite filter_cons. cbn [sid].
  destruct (decide (Sql.next_sid db ≠ Sql.next_sid db)) as [Hne|_]; [done|].
  by rewrite filter_nil, app_nil_r.
Qed.

(** ** What update and deletion commit *)

Lemma triple_pure {A} (I : Conn → Prop) (P : Prop) (m : M A) Q E :
  (P → triple I m Q E) → triple (λ c, I c ∧ P) m Q E.
Proof. intros H w [Hw HP]. by apply H. Qed.

Lemma triple_answer_at {A} (c0 : Conn) (m : M A) (P : A → Prop) (E : Conn → Prop) :
  keeps (λ c, c = c0) m → (∀ w a, (m w).1 = Ok a → P a) → E c0 →
  triple (λ c, c = c0) m (λ a c, c = c0 ∧ P a) E.
Proof.
  intros Hm HP HE.
  eapply triple_conseq; [apply (triple_answer (λ c, c = c0) m P Hm HP)|auto..].
  by intros c ->.
Qed.

Lemma triple_select_at {A} (c0 : Conn) (q : DB → A) (E : Conn → Prop) :
  E c0 →
  triple (λ c, c = c0) (execute_select q) (λ a c, c = c0 ∧ a = q (view c0)) E.
Proof.
  intros HE.
  eapply triple_conseq; [apply (triple_select (λ c, c = c0) q)|auto..].
  - by intros a c [-> ->].
  - by intros c ->.
Qed.

Lemma idle_mk (c : Conn) : idle c → mkConn (disk c) None = c.
Proof. destruct c as [d t]. unfold idle. simpl. by intros ->. Qed.

Section Committed.

Variable py_int : string → option Z.
Variable py_strip : string → string.

Lemma leads_update_sale_record_repriced c0 :
  idle c0 →
  leads (λ c, c = c0)
        (λ c, idle c ∧ (disk c = disk c0 ∨ repriced (disk c0) (disk c)))
        (update_sale_record py_int py_strip).
Proof.
  intros Hidle. apply leads_triple. unfold update_sale_record.
  set (J := λ c : Conn, idle c ∧ _).
  assert (J c0) as HJ by (split; [done|by left]).
  assert (∀ {A} (m : M A), keeps (λ c, c = c0) m →
            triple (λ c, c = c0) m (λ _ c, c = c0) J) as Hkeep.
  { intros A m Hm. apply triple_keeps_weaken; auto. by intros c ->. }
  assert (∀ {A} (m : M A), keeps (λ c, c = c0) m →
            triple (λ c, c = c0) m (λ _, J) J) as Hend.
  { intros A m Hm. apply triple_keeps_weaken; auto; by intros; subst. }
  pose proof (idle_view _ Hidle) as Hview.
  eapply triple_bind; [by apply triple_select_at|].
  intros sales. apply triple_pure. intros Hsales.
  destruct sales as [|p0 sales]; [by apply Hend, leads_print|].
  eapply triple_bind; [apply Hkeep, keeps_print_picks|]. intros [].
  eapply triple_bind; [apply Hkeep, leads_fmap, leads_input|]. intros choice.
  destruct (decide (choice = "")); [by apply Hend, leads_ret|].
  eapply triple_bind; [apply Hkeep, keeps_parse_choice|]. intros [idx|];
    [|by apply Hend, leads_print].
  eapply triple_bind.
  { apply (triple_answer_at c0 _ (λ k, ∃ p, p ∈ p0 :: sales ∧ k = Sql.p_sid p));
      [apply leads_fmap, keeps_nth_pick| |done].
    intros w k. unfold nth_pick, fmap, M_fmap.
    destruct ((p0 :: sales) !! Z.to_nat (idx - 1)) as [p|] eqn:Hp; cbn; [|done].
    intros [= <-]. exists p. split; [|done]. by eapply list_elem_of_lookup_2. }
  intros k. apply triple_pure. intros (p & Hp & ->).
  eapply triple_bind; [by apply triple_select_at|].
  intros sale. apply triple_pure. intros Hsale.
  eapply triple_bind.
  { apply (triple_answer_at c0 _ (λ v, ∀ x, v = Some x → x >= 0));
      [apply keeps_get_valid_non_negative_integer_input| |done].
    intros w v Hv x ->.
    by eapply get_valid_non_negative_integer_input_non_negative. }
  intros [nd|]; apply triple_pure; intros Hnd;
    [|by apply Hend, leads_ret].
  specialize (Hnd nd eq_refl).
  destruct sale as [s|].
  2:{ eapply triple_bind.
      { apply (triple_answer_at c0 _ (λ _, False));
          [apply leads_fmap, keeps_subscript|by intros w a|done]. }
      intros b. apply triple_pure. intros []. }
  eapply triple_bind.
  { apply (triple_answer_at c0 _ (λ b, b = bid s));
      [apply leads_fmap, keeps_subscript|by intros w a [= <-]|done]. }
  intros b. apply triple_pure. intros ->.
  eapply triple_bind; [by apply triple_select_at|].
  intros row. apply triple_pure. unfold Sql.select_bprice. rewrite Hview.
  destruct (book (disk c0) !! bid s) as [bk|] eqn:Hbk; intros ->.
  2:{ eapply triple_bind.
      { apply (triple_answer_at c0 _ (λ _, False));
          [apply keeps_subscript|by intros w a|done]. }
      intros price. apply triple_pure. intros []. }
  eapply triple_bind.
  { apply (triple_answer_at c0 _ (λ price, price = bprice bk));
      [apply keeps_subscript|by intros w a [= <-]|done]. }
  intros price. apply triple_pure. intros ->.
  eapply triple_bind.
  { apply (triple_answer_at c0 _ (λ qty, qty = sqty s));
      [apply leads_fmap, keeps_subscript|by intros w a [= <-]|done]. }
  intros qty. apply triple_pure. intros ->.
  apply triple_leads, leads_update_txn.
  - intros c ->. by rewrite idle_mk.
  - intros c ->. split; [done|]. right. cbn [disk]. rewrite Hview.
    exists p, s, bk, nd. rewrite Hsales, Hview in Hp. rewrite Hview in Hsale.
    done.
Qed.

Lemma leads_delete_sale_record_removed c0 :
  idle c0 →
  leads (λ c, c = c0)
        (λ c, idle c ∧ (disk c = disk c0 ∨ removed (disk c0) (disk c)))
        (delete_sale_record py_int py_strip).
Proof.
  intros Hidle. apply leads_triple. unfold delete_sale_record.
  set (J := λ c : Conn, idle c ∧ _).
  assert (J c0) as HJ by (split; [done|by left]).
  assert (∀ {A} (m : M A), keeps (λ c, c = c0) m →
            triple (λ c, c = c0) m (λ _ c, c = c0) J) as Hkeep.
  { intros A m Hm. apply triple_keeps_weaken; auto. by intros c ->. }
  assert (∀ {A} (m : M A), keeps (λ c, c = c0) m →
            triple (λ c, c = c0) m (λ _, J) J) as Hend.
  { intros A m Hm. apply triple_keeps_weaken; auto; by intros; subst. }
  pose proof (idle_view _ Hidle) as Hview.
  eapply triple_bind; [by apply triple_select_at|].
  intros sales. apply triple_pure. intros Hsales.
  destruct sales as [|p0 sales]; [by apply Hend, leads_print|].
  eapply triple_bind; [apply Hkeep, keeps_print_picks|]. intros [].
  eapply triple_bind; [apply Hkeep, leads_fmap, leads_input|]. intros choice.
  destruct (decide (choice = "")); [by apply Hend, leads_ret|].
  eapply triple_bind; [apply Hkeep, keeps_parse_choice|]. intros [idx|];
    [|by apply Hend, leads_print].
  eapply triple_bind.
  { apply (triple_answer_at c0 _ (λ k, ∃ p, p ∈ p0 :: sales ∧ k = Sql.p_sid p));
      [apply leads_fmap, keeps_nth_pick| |done].
    intros w k. unfold nth_pick, fmap, M_fmap.
    destruct ((p0 :: sales) !! Z.to_nat (idx - 1)) as [p|] eqn:Hp; cbn; [|done].
    intros [= <-]. exists p. split; [|done]. by eapply list_elem_of_lookup_2. }
  intros k. apply triple_pure. intros (p & Hp & ->).
  apply triple_leads, leads_delete_txn.
  - intros c ->. by rewrite idle_mk.
  - intros c ->. split; [done|]. right. cbn [disk]. rewrite Hview.
    exists p. rewrite Hsales, Hview in Hp. done.
Qed.

End Committed.

(** ** Totals that follow the price *)

Lemma priced_sale_writes d m b q disc db bk :
  priced db → book db !! b = Some bk →
  priced (sale_writes d m b q disc (bprice bk * q - disc) db).
Proof.
  unfold priced, sale_writes, Sql.update_book_stock, Sql.insert_sale.
  cbn [sale book]. intros H Hb. apply Forall_app. split.
  - eapply Forall_impl; [exact H|]. cbn beta. intros s Hs.
    rewrite lookup_alter. case_decide as Hk; [|done].
    rewrite <-Hk in Hs. rewrite Hb in *. exact Hs.
  - apply Forall_singleton. cbn [bid sqty sdiscount stotal].
    by rewrite lookup_alter_eq, Hb.
Qed.

Lemma priced_update_sale nd k db s bk :
  keyed db → priced db →
  Sql.select_sale k db = Some s → book db !! bid s = Some bk →
  priced (Sql.update_sale nd (bprice bk * sqty s - nd) k db).
Proof.
  unfold priced, Sql.update_sale. cbn [sale book]. intros Hk H Hs Hb.
  apply Forall_fmap. rewrite Forall_forall in H. apply Forall_forall.
  intros r Hr. cbn. unfold Sql.set_discount. case_decide as Hkr; [|by apply H].
  cbn. pose proof (SqlFacts.select_sale_keyed db r Hk Hr) as Hsel.
  rewrite Hkr, Hs in Hsel. injection Hsel as ->. by rewrite Hb.
Qed.

Lemma priced_delete_sale k db : priced db → priced (Sql.delete_sale k db).
Proof.
  unfold priced, Sql.delete_sale. cbn [sale book]. rewrite !Forall_forall.
  intros H s [_ Hs]%list_elem_of_filter. by apply H.
Qed.

Lemma same_but_discount_update_sale nd tot k (l : list Sale) :
  Forall2 same_but_discount l (Sql.set_discount k nd tot <$> l).
Proof.
  induction l as [|s l IH]; [constructor|]. cbn. constructor; [|exact IH].
  unfold same_but_discount, Sql.set_discount. by case_decide.
Qed.

Lemma same_but_discount_refl (l : list Sale) : Forall2 same_but_discount l l.
Proof. induction l; constructor; [done|assumption]. Qed.

(** ** Rounds of the menu *)

Lemma print_menu_run c i o fs :
  ∃ o', print_menu (mkWorld c i o fs) = (Ok tt, mkWorld c i (o ++ o') fs).
Proof.
  unfold print_menu. repeat (erewrite bind_ok by apply print_run).
  rewrite print_run. rewrite <-!app_assoc. by eexists.
Qed.

Section MenuRounds.

Variable py_int : string → option Z.
Variable py_strip : string → string.
Variable re_fullmatch : string → string → bool.

Lemma menu_round_exit c choice rest o fs :
  py_strip choice ∈ [""; "5"] →
  ∃ o', menu_round py_int py_strip re_fullmatch (mkWorld c (choice :: rest) o fs)
        = (Ok (Some tt), mkWorld c rest (o ++ o' ++ [Line msg_goodbye]) fs).
Proof.
  intros Hc. unfold menu_round.
  destruct (print_menu_run c (choice :: rest) o fs) as [o1 Ho1].
  erewrite bind_ok by exact Ho1.
  erewrite bind_ok by (apply fmap_ok, input_run).
  rewrite (decide_True _ _ Hc).
  erewrite bind_ok by apply print_run.
  exists (o1 ++ [Prompt "請選擇操作項目(Enter 離開)："]).
  by rewrite <-!app_assoc.
Qed.

Lemma menu_round_unknown c choice rest o fs :
  py_strip choice ∉ [""; "1"; "2"; "3"; "4"; "5"] →
  ∃ o', menu_round py_int py_strip re_fullmatch (mkWorld c (choice :: rest) o fs)
        = (Ok None, mkWorld c rest (o ++ o' ++ [Line msg_invalid_option]) fs).
Proof.
  intros Hc. unfold menu_round.
  destruct (print_menu_run c (choice :: rest) o fs) as [o1 Ho1].
  erewrite bind_ok by exact Ho1.
  erewrite bind_ok by (apply fmap_ok, input_run).
  rewrite !elem_of_cons, elem_of_nil in Hc.
  rewrite decide_False by (rewrite !elem_of_cons, elem_of_nil; tauto).
  rewrite !decide_False by tauto.
  erewrite bind_ok by apply print_run.
  exists (o1 ++ [Prompt "請選擇操作項目(Enter 離開)："]).
  by rewrite <-!app_assoc.
Qed.

Lemma loop_menu_round_skips c bad choice rest o fs :
  Forall (λ l, py_strip l ∉ [""; "1"; "2"; "3"; "4"; "5"]) bad →
  py_strip choice ∈ [""; "5"] →
  ∃ o', loop (menu_round py_int py_strip re_fullmatch)
          (mkWorld c (bad ++ choice :: rest) o fs)
        = (Ok tt, mkWorld c rest (o ++ o' ++ [Line msg_goodbye]) fs).
Proof.
  intros Hbad Hc. revert o. induction Hbad as [|l bad Hl _ IH]; intros o.
  - cbn [app]. destruct (menu_round_exit c choice rest o fs Hc) as [o' Ho'].
    exists o'. unfold loop. rewrite while_true_S.
    by erewrite bind_ok by exact Ho'.
  - cbn [app].
    destruct (menu_round_unknown c l (bad ++ choice :: rest) o fs Hl) as [o1 Ho1].
    rewrite (loop_round _ _ _ (reading_menu_round py_int py_strip re_fullmatch) Ho1).
    destruct (IH (o ++ o1 ++ [Line msg_invalid_option])) as [o2 Ho2].
    exists (o1 ++ [Line msg_invalid_option] ++ o2). rewrite Ho2.
    by rewrite <-!app_assoc.
Qed.

End MenuRounds.

(** What a loop answers was answered by one of its rounds. *)
Lemma while_true_result {A} (body : M (option A)) (Q : A → World → Prop) n w a w' :
  (∀ w1 a1 w2, body w1 = (Ok (Some a1), w2) → Q a1 w2) →
  while_true n body w = (Ok a, w') → Q a w'.
Proof.
  intros Hbody. revert w. induction n as [|n IH]; intros w; [done|].
  rewrite while_true_S. unfold mbind, M_bind.
  destruct (body w) as [[[a1|]|e|] w1] eqn:E; cbn; try done.
  - intros [= <- <-]. by eapply Hbody.
  - apply IH.
Qed.

Lemma then_none_no_answer {A B} (m : M A) w (b : B) w' :
  (m;; mret (None : option B)) w ≠ (Ok (Some b), w').
Proof. unfold mbind, M_bind. by destruct (m w) as [[a|e|] w1]. Qed.

Section MenuLeaves.

Variable py_int : string → option Z.
Variable py_strip : string → string.
Variable re_fullmatch : string → string → bool.

Lemma menu_round_leaves w w' :
  menu_round py_int py_strip re_fullmatch w = (Ok (Some tt), w') →
  last (stdout w') = Some (Line msg_goodbye).
Proof.
  unfold menu_round. destruct w as [c i o fs].
  destruct (print_menu_run c i o fs) as [o1 Ho1].
  erewrite bind_ok by exact Ho1.
  destruct i as [|l i]; [done|].
  erewrite bind_ok by (apply fmap_ok, input_run).
  repeat case_decide; try (by intros ?%then_none_no_answer).
  erewrite bind_ok by apply print_run. intros [= <-]. cbn. by rewrite last_snoc.
Qed.

End MenuLeaves.

(** * Further properties: the statements *)

(** ** The bootstrap *)

(** X1.  Running the bootstrap a second time changes nothing: after a run
    in which no sqlite3 call fails every table has a row, and a second run
    commits the same store. *)
Theorem initialize_db_is_idempotent (w : World) :
  calm w →
  let r1 := initialize_db w in
  let r2 := initialize_db r1.2 in
  r1.1 = Ok tt ∧ r2.1 = Ok tt ∧
  conn r2.2 = conn r1.2 ∧
  member (disk (conn r1.2)) ≠ ∅ ∧
  book (disk (conn r1.2)) ≠ ∅ ∧
  sale (disk (conn r1.2)) ≠ [].
Proof.
  intros Hw r1 r2.
  destruct (initialize_db_run w Hw) as (Hr1 & Hc1 & _ & _ & Hcalm1).
  fold r1 in Hr1, Hc1, Hcalm1.
  destruct (initialize_db_run r1.2 Hcalm1) as (Hr2 & Hc2 & _).
  fold r2 in Hr2, Hc2.
  destruct (bootstrap_full (view (conn w))) as (Hm & Hb & Hs).
  split; [done|]. split; [done|].
  rewrite Hc2, Hc1. cbn [view disk txn default].
  split; [by rewrite bootstrap_fixed|].
  split; [by rewrite <-map_size_empty_iff|].
  split; [by rewrite <-map_size_empty_iff|].
  intros Hnil. by rewrite Hnil in Hs.
Qed.

Lemma initialize_db_is_idempotent_witness :
  let w := quiet_world empty_db [] in
  let r1 := initialize_db w in
  let r2 := initialize_db r1.2 in
  r1.1 = Ok tt ∧ r2.1 = Ok tt ∧
  conn r2.2 = conn r1.2 ∧
  member (disk (conn r1.2)) ≠ ∅ ∧
  book (disk (conn r1.2)) ≠ ∅ ∧
  sale (disk (conn r1.2)) ≠ [].
Proof.
  apply (initialize_db_is_idempotent (quiet_world empty_db [])).
  constructor.
Defined.

(** X2.  The bootstrap fills the tables that have no row and leaves alone
    the tables that have one: a table of members or books with a row is
    committed as it was, an empty one gets exactly the seed rows, and a table
    of sales with a row is committed as it was, with its counter. *)
Theorem initialize_db_fills_only_empty_tables (w : World) :
  calm w →
  let db := view (conn w) in
  let db' := disk (conn (initialize_db w).2) in
  (member db ≠ ∅ → member db' = member db) ∧
  (member db = ∅ → member db' = seed_members) ∧
  (book db ≠ ∅ → book db' = book db) ∧
  (book db = ∅ → book db' = seed_books) ∧
  (sale db ≠ [] → sale db' = sale db ∧ sale_seq db' = sale_seq db).
Proof.
  intros Hw db db'.
  destruct (initialize_db_run w Hw) as (_ & Hc & _).
  subst db'. rewrite Hc. cbn [disk].
  destruct (bootstrap_tables db) as (Hm & Hb & Hs & _). fold db.
  rewrite Hm, Hb.
  split; [intros; by rewrite decide_False|].
  split; [intros; by rewrite decide_True|].
  split; [intros; by rewrite decide_False|].
  split; [intros; by rewrite decide_True|].
  exact Hs.
Qed.

Lemma initialize_db_fills_only_empty_tables_witness :
  let w := quiet_world (mkDB (member seeded) ∅ [] 5) [] in
  let db := view (conn w) in
  let db' := disk (conn (initialize_db w).2) in
  (member db ≠ ∅ → member db' = member db) ∧
  (member db = ∅ → member db' = seed_members) ∧
  (book db ≠ ∅ → book db' = book db) ∧
  (book db = ∅ → book db' = seed_books) ∧
  (sale db ≠ [] → sale db' = sale db ∧ sale_seq db' = sale_seq db).
Proof.
  apply (initialize_db_fills_only_empty_tables
           (quiet_world (mkDB (member seeded) ∅ [] 5) [])).
  constructor.
Defined.

(** X3.  When the table of sales has no row at start, also because every
    sale was deleted, the bootstrap inserts the five seed sales again, and
    they get the five keys that follow the counter, not the keys 1 to 5
    once more. *)
Theorem initialize_db_reseeds_sales_after_counter (w : World) :
  calm w →
  let db := view (conn w) in
  let db' := disk (conn (initialize_db w).2) in
  sale db = [] → 0 ≤ sale_seq db →
  let k := sale_seq db in
  sale db'
  = [ mkSale (k + 1) "2024-01-15" "M001" "B001" 2 100 1100;
      mkSale (k + 2) "2024-01-16" "M002" "B002" 1 50 750;
      mkSale (k + 3) "2024-01-17" "M001" "B003" 1 0 1200;
      mkSale (k + 4) "2024-01-18" "M003" "B001" 1 0 600;
      mkSale (k + 5) "2024-01-19" "M002" "B003" 2 150 2250 ] ∧
  sale_seq db' = k + 5.
Proof.
  intros Hw db db' Hnil Hseq k.
  destruct (initialize_db_run w Hw) as (_ & Hc & _).
  subst db'. rewrite Hc. cbn [disk].
  destruct (bootstrap_tables db) as (_ & _ & _ & Hs). fold db.
  destruct (Hs Hnil) as [-> ->].
  destruct (sale_seed_sales db) as (-> & -> & _).
  assert (Sql.next_sid db = k + 1) as ->.
  { unfold Sql.next_sid. rewrite Hnil. simpl. subst k. lia. }
  rewrite Hnil. simpl.
  replace (k + 1 + 1) with (k + 2) by lia.
  replace (k + 1 + 2) with (k + 3) by lia.
  replace (k + 1 + 3) with (k + 4) by lia.
  replace (k + 1 + 4) with (k + 5) by lia.
  done.
Qed.

Lemma initialize_db_reseeds_sales_after_counter_witness :
  let w := quiet_world (mkDB (member seeded) (book seeded) [] 5) [] in
  let db' := disk (conn (initialize_db w).2) in
  sale db'
  = [ mkSale (5 + 1) "2024-01-15" "M001" "B001" 2 100 1100;
      mkSale (5 + 2) "2024-01-16" "M002" "B002" 1 50 750;
      mkSale (5 + 3) "2024-01-17" "M001" "B003" 1 0 1200;
      mkSale (5 + 4) "2024-01-18" "M003" "B001" 1 0 600;
      mkSale (5 + 5) "2024-01-19" "M002" "B003" 2 150 2250 ] ∧
  sale_seq db' = 5 + 5.
Proof.
  apply (initialize_db_reseeds_sales_after_counter
           (quiet_world (mkDB (member seeded) (book seeded) [] 5) [])).
  - constructor.
  - reflexivity.
  - simpl. lia.
Defined.

(** ** The whole program *)



(** ** The prompts *)

(** X5.  [get_valid_integer_input] goes through the lines one by one: with
    no line left it raises EOFError after showing the prompt; a blank line
    gives None; a line that [int] accepts gives its number; any other line
    is answered with the error line, and the next line is read in the same
    way. *)
Theorem get_valid_integer_input_line_by_line
    (py_int : string → option Z) (prompt : string) c o fs :
  get_valid_integer_input py_int prompt (mkWorld c [] o fs)
  = (Raise EOFError, mkWorld c [] (o ++ [Prompt prompt]) fs) ∧
  ∀ l rest,
    get_valid_integer_input py_int prompt (mkWorld c (l :: rest) o fs)
    = if decide (l = "") then (Ok None, mkWorld c rest (o ++ [Prompt prompt]) fs)
      else match py_int l with
           | Some n => (Ok (Some n), mkWorld c rest (o ++ [Prompt prompt]) fs)
           | None =>
               get_valid_integer_input py_int prompt
                 (mkWorld c rest (o ++ [Prompt prompt; Line err_not_integer]) fs)
           end.
Proof.
  split; [apply get_valid_integer_input_eof|].
  intros l rest. destruct (decide (l = "")) as [->|Hl].
  - apply get_valid_integer_input_blank.
  - destruct (py_int l) as [n|] eqn:Hn.
    + by apply get_valid_integer_input_run.
    + by apply get_valid_integer_input_retry.
Qed.

(** X6.  Lines that [int] refuses are skipped, each answered with the prompt
    and the error line, up to the first line that is blank or that [int]
    accepts; when every line left is refused, EOFError is raised at the end
    of the input. *)
Theorem get_valid_integer_input_skips_refused_lines
    (py_int : string → option Z) (prompt : string) (bad : list string) c o fs :
  Forall (λ l, l ≠ "" ∧ py_int l = None) bad →
  (∀ s rest,
     s = "" ∨ is_Some (py_int s) →
     get_valid_integer_input py_int prompt (mkWorld c (bad ++ s :: rest) o fs)
     = (Ok (if decide (s = "") then None else py_int s),
        mkWorld c rest
          (o ++ refused prompt err_not_integer bad ++ [Prompt prompt]) fs)) ∧
  get_valid_integer_input py_int prompt (mkWorld c bad o fs)
  = (Raise EOFError,
     mkWorld c [] (o ++ refused prompt err_not_integer bad ++ [Prompt prompt]) fs).
Proof.
  intros Hbad. split.
  - intros s rest Hs. rewrite get_valid_integer_input_skip by done.
    rewrite app_assoc. destruct (decide (s = "")) as [->|Hne].
    + apply get_valid_integer_input_blank.
    + destruct Hs as [?|[n Hn]]; [done|]. rewrite Hn.
      by apply get_valid_integer_input_run.
  - rewrite <-(app_nil_r bad) at 1.
    rewrite get_valid_integer_input_skip by done.
    rewrite app_assoc. apply get_valid_integer_input_eof.
Qed.

Lemma get_valid_integer_input_skips_refused_lines_witness :
  let c := mkConn seeded None in
  (∀ s rest,
     s = "" ∨ is_Some (Plain.int s) →
     get_valid_integer_input Plain.int "n: " (mkWorld c (["x"; "1.5"] ++ s :: rest) [] [])
     = (Ok (if decide (s = "") then None else Plain.int s),
        mkWorld c rest
          ([] ++ refused "n: " err_not_integer ["x"; "1.5"] ++ [Prompt "n: "]) [])) ∧
  get_valid_integer_input Plain.int "n: " (mkWorld c ["x"; "1.5"] [] [])
  = (Raise EOFError,
     mkWorld c [] ([] ++ refused "n: " err_not_integer ["x"; "1.5"] ++ [Prompt "n: "]) []).
Proof.
  apply (get_valid_integer_input_skips_refused_lines Plain.int "n: " ["x"; "1.5"]).
  repeat constructor; done.
Defined.

(** X7.  [get_valid_non_negative_integer_input] goes through the lines one
    by one: with no line left it raises EOFError; a blank line gives None; a
    number of zero or more is handed on; a negative number is answered
    with the negative-discount line and a line that is no number with the
    not-an-integer line, and in both cases the next line is read in the same
    way. *)
Theorem get_valid_non_negative_integer_input_line_by_line
    (py_int : string → option Z) (prompt : string) c o fs :
  get_valid_non_negative_integer_input py_int prompt (mkWorld c [] o fs)
  = (Raise EOFError, mkWorld c [] (o ++ [Prompt prompt]) fs) ∧
  ∀ l rest,
    get_valid_non_negative_integer_input py_int prompt (mkWorld c (l :: rest) o fs)
    = if decide (l = "") then (Ok None, mkWorld c rest (o ++ [Prompt prompt]) fs)
      else match py_int l with
           | Some n =>
               if decide (n >= 0)
               then (Ok (Some n), mkWorld c rest (o ++ [Prompt prompt]) fs)
               else get_valid_non_negative_integer_input py_int prompt
                      (mkWorld c rest (o ++ [Prompt prompt; Line err_negative]) fs)
           | None =>
               get_valid_non_negative_integer_input py_int prompt
                 (mkWorld c rest (o ++ [Prompt prompt; Line err_not_integer]) fs)
           end.
Proof.
  split; [apply get_valid_non_negative_integer_input_eof|].
  intros l rest. destruct (decide (l = "")) as [->|Hl].
  - apply get_valid_non_negative_integer_input_blank.
  - destruct (py_int l) as [n|] eqn:Hn.
    + destruct (decide (n >= 0)).
      * apply get_valid_non_negative_integer_input_run; (done || lia).
      * apply (get_valid_non_negative_integer_input_retry py_int prompt l n);
          (done || lia).
    + by apply get_valid_non_negative_integer_input_skip.
Qed.

(** X8.  [get_valid_positive_integer_input] goes through the lines one by
    one: with no line left it raises EOFError; a blank line gives None; a
    number above zero is handed on; zero or a negative number is answered
    with the not-positive line and a line that is no number with the
    not-an-integer line, and in both cases the next line is read in the same
    way. *)
Theorem get_valid_positive_integer_input_line_by_line
    (py_int : string → option Z) (prompt : string) c o fs :
  get_valid_positive_integer_input py_int prompt (mkWorld c [] o fs)
  = (Raise EOFError, mkWorld c [] (o ++ [Prompt prompt]) fs) ∧
  ∀ l rest,
    get_valid_positive_integer_input py_int prompt (mkWorld c (l :: rest) o fs)
    = if decide (l = "") then (Ok None, mkWorld c rest (o ++ [Prompt prompt]) fs)
      else match py_int l with
           | Some n =>
               if decide (n > 0)
               then (Ok (Some n), mkWorld c rest (o ++ [Prompt prompt]) fs)
               else get_valid_positive_integer_input py_int prompt
                      (mkWorld c rest (o ++ [Prompt prompt; Line err_not_positive]) fs)
           | None =>
               get_valid_positive_integer_input py_int prompt
                 (mkWorld c rest (o ++ [Prompt prompt; Line err_not_integer]) fs)
           end.
Proof.
  split; [apply get_valid_positive_integer_input_eof|].
  intros l rest. destruct (decide (l = "")) as [->|Hl].
  - apply get_valid_positive_integer_input_blank.
  - destruct (py_int l) as [n|] eqn:Hn.
    + destruct (decide (n > 0)).
      * apply get_valid_positive_integer_input_run; (done || lia).
      * apply (get_valid_positive_integer_input_retry py_int prompt l n);
          (done || lia).
    + by apply get_valid_positive_integer_input_skip.
Qed.

(** ** Adding a sale from the terminal *)



(** X10.  A blank line at the quantity prompt, or at the discount prompt,
    ends [add_new_sale] without a word: [add_sale] is not called, the
    connection is as before, and only the prompts were written. *)
Theorem add_new_sale_blank_answer_cancels
    (py_int : string → option Z) (re_fullmatch : string → string → bool)
    c sdate m b rest o fs :
  is_valid_date re_fullmatch sdate = true →
  add_new_sale py_int re_fullmatch (mkWorld c (sdate :: m :: b :: "" :: rest) o fs)
  = (Ok tt,
     mkWorld c rest
       (o ++ [Prompt "請輸入銷售日期 (YYYY-MM-DD)："; Prompt "請輸入會員編號：";
              Prompt "請輸入書籍編號："; Prompt "請輸入購買數量："]) fs) ∧
  ∀ qs q,
    qs ≠ "" → py_int qs = Some q → 0 < q →
    add_new_sale py_int re_fullmatch
      (mkWorld c (sdate :: m :: b :: qs :: "" :: rest) o fs)
    = (Ok tt,
       mkWorld c rest
         (o ++ [Prompt "請輸入銷售日期 (YYYY-MM-DD)："; Prompt "請輸入會員編號：";
                Prompt "請輸入書籍編號："; Prompt "請輸入購買數量：";
                Prompt "請輸入折扣金額："]) fs).
Proof.
  intros Hd. split.
  - by apply add_new_sale_blank_quantity.
  - intros qs q Hqs Hq Hpos. by eapply add_new_sale_blank_discount.
Qed.

Lemma add_new_sale_blank_answer_cancels_witness :
  let c := mkConn seeded None in
  add_new_sale Plain.int Plain.fullmatch
    (mkWorld c ["2024-02-01"; "M001"; "B001"; ""; "7"] [] [])
  = (Ok tt,
     mkWorld c ["7"]
       ([] ++ [Prompt "請輸入銷售日期 (YYYY-MM-DD)："; Prompt "請輸入會員編號：";
               Prompt "請輸入書籍編號："; Prompt "請輸入購買數量："]) []) ∧
  ∀ qs q,
    qs ≠ "" → Plain.int qs = Some q → 0 < q →
    add_new_sale Plain.int Plain.fullmatch
      (mkWorld c ("2024-02-01" :: "M001" :: "B001" :: qs :: "" :: ["7"]) [] [])
    = (Ok tt,
       mkWorld c ["7"]
         ([] ++ [Prompt "請輸入銷售日期 (YYYY-MM-DD)："; Prompt "請輸入會員編號：";
                 Prompt "請輸入書籍編號："; Prompt "請輸入購買數量：";
                 Prompt "請輸入折扣金額："]) []).
Proof.
  apply (add_new_sale_blank_answer_cancels Plain.int Plain.fullmatch
           (mkConn seeded None) "2024-02-01" "M001" "B001" ["7"] [] []).
  reflexivity.
Defined.



(** ** Updating and deleting from the terminal *)

(** X12.  When the selection list is empty, for one because there is no
    sale, the update and the deletion print their nothing-to-do line and end:
    no line is read and the connection is as before. *)
Theorem update_and_delete_with_nothing_listed
    (py_int : string → option Z) (py_strip : string → string) c i o fs :
  Forall (λ b, b = false) fs →
  Sql.select_picks (view c) = [] →
  update_sale_record py_int py_strip (mkWorld c i o fs)
  = (Ok tt, mkWorld c i (o ++ [Line msg_nothing_to_update]) (tail fs)) ∧
  delete_sale_record py_int py_strip (mkWorld c i o fs)
  = (Ok tt, mkWorld c i (o ++ [Line msg_nothing_to_delete]) (tail fs)).
Proof.
  intros Hfs Hnil. split.
  - by apply update_sale_record_nothing_listed.
  - by apply delete_sale_record_nothing_listed.
Qed.

Lemma update_and_delete_with_nothing_listed_witness :
  let c := mkConn (Sql.delete_sale 1 (mkDB (member seeded) (book seeded)
                     [mkSale 1 "2024-01-15" "M001" "B001" 2 100 1100] 1)) None in
  update_sale_record Plain.int Plain.strip (mkWorld c ["1"] [] [])
  = (Ok tt, mkWorld c ["1"] ([] ++ [Line msg_nothing_to_update]) (tail [])) ∧
  delete_sale_record Plain.int Plain.strip (mkWorld c ["1"] [] [])
  = (Ok tt, mkWorld c ["1"] ([] ++ [Line msg_nothing_to_delete]) (tail [])).
Proof.
  apply (update_and_delete_with_nothing_listed Plain.int Plain.strip
           (mkConn (Sql.delete_sale 1 (mkDB (member seeded) (book seeded)
                      [mkSale 1 "2024-01-15" "M001" "B001" 2 100 1100] 1)) None)
           ["1"] [] []).
  - constructor.
  - reflexivity.
Defined.

(** X13.  A choice that is blank once stripped cancels the update and the
    deletion, and a blank line at the discount prompt cancels the update:
    the operation ends without a message, having read the lines up to the
    blank one, and the connection is as before. *)
Theorem blank_answer_cancels_update_and_delete
    (py_int : string → option Z) (py_strip : string → string)
    c choice rest o fs :
  Forall (λ b, b = false) fs →
  Sql.select_picks (view c) ≠ [] →
  (py_strip choice = "" →
   let r := update_sale_record py_int py_strip (mkWorld c (choice :: rest) o fs) in
   let r' := delete_sale_record py_int py_strip (mkWorld c (choice :: rest) o fs) in
   (r.1 = Ok tt ∧ conn r.2 = c ∧ stdin r.2 = rest ∧
    last (stdout r.2) = Some (Prompt prompt_update)) ∧
   (r'.1 = Ok tt ∧ conn r'.2 = c ∧ stdin r'.2 = rest ∧
    last (stdout r'.2) = Some (Prompt prompt_delete))) ∧
  (∀ idx p,
     1 ≤ idx → Sql.select_picks (view c) !! Z.to_nat (idx - 1) = Some p →
     py_strip choice ≠ "" → py_int (py_strip choice) = Some idx →
     let r := update_sale_record py_int py_strip
                (mkWorld c (choice :: "" :: rest) o fs) in
     r.1 = Ok tt ∧ conn r.2 = c ∧ stdin r.2 = rest ∧
     last (stdout r.2) = Some (Prompt prompt_discount)).
Proof.
  intros Hfs Hne. split.
  - intros Hc r r'. split.
    + by apply update_sale_record_blank_choice.
    + by apply delete_sale_record_blank_choice.
  - intros idx p Hidx Hp Hc1 Hc2.
    by eapply update_sale_record_blank_discount.
Qed.

Lemma blank_answer_cancels_update_and_delete_witness :
  let c := mkConn seeded None in
  (Plain.strip "  " = "" →
   let r := update_sale_record Plain.int Plain.strip (mkWorld c ["  "; "7"] [] []) in
   let r' := delete_sale_record Plain.int Plain.strip (mkWorld c ["  "; "7"] [] []) in
   (r.1 = Ok tt ∧ conn r.2 = c ∧ stdin r.2 = ["7"] ∧
    last (stdout r.2) = Some (Prompt prompt_update)) ∧
   (r'.1 = Ok tt ∧ conn r'.2 = c ∧ stdin r'.2 = ["7"] ∧
    last (stdout r'.2) = Some (Prompt prompt_delete))) ∧
  (∀ idx p,
     1 ≤ idx → Sql.select_picks (view c) !! Z.to_nat (idx - 1) = Some p →
     Plain.strip "  " ≠ "" → Plain.int (Plain.strip "  ") = Some idx →
     let r := update_sale_record Plain.int Plain.strip
                (mkWorld c ("  " :: "" :: ["7"]) [] []) in
     r.1 = Ok tt ∧ conn r.2 = c ∧ stdin r.2 = ["7"] ∧
     last (stdout r.2) = Some (Prompt prompt_discount)).
Proof.
  apply (blank_answer_cancels_update_and_delete Plain.int Plain.strip
           (mkConn seeded None) "  " ["7"] [] []).
  - constructor.
  - vm_compute. discriminate.
Defined.



(** X15.  The update does not check that the book of the chosen sale still
    exists: when it does not, the price query gives no row and subscripting
    it raises TypeError, after the discount was read; nothing is written. *)
Theorem update_of_sale_without_book_raises
    (py_int : string → option Z) (py_strip : string → string)
    c choice answer rest o fs (idx nd : Z) (p : Sql.Pick) (s : Sale) :
  Forall (λ b, b = false) fs →
  1 ≤ idx → Sql.select_picks (view c) !! Z.to_nat (idx - 1) = Some p →
  Sql.select_sale (Sql.p_sid p) (view c) = Some s →
  book (view c) !! bid s = None →
  py_strip choice ≠ "" → py_int (py_strip choice) = Some idx →
  answer ≠ "" → py_int answer = Some nd → 0 ≤ nd →
  let r := update_sale_record py_int py_strip
             (mkWorld c (choice :: answer :: rest) o fs) in
  r.1 = Raise TypeError ∧ conn r.2 = c ∧ stdin r.2 = rest.
Proof.
  intros Hfs Hidx Hp Hs Hbk Hc1 Hc2 Ha1 Ha2 Hnd r. subst r.
  pose proof (lookup_lt_Some _ _ _ Hp) as Hlen.
  unfold update_sale_record.
  erewrite bind_ok by (by apply execute_select_calm). cbv beta iota.
  destruct (Sql.select_picks (view c)) as [|p0 picks] eqn:Hpicks; [done|].
  destruct (print_picks_run (p0 :: picks) c (choice :: answer :: rest) o (tail fs))
    as [out Hout].
  erewrite bind_ok by exact Hout. cbv beta iota.
  erewrite bind_ok by (apply fmap_ok, input_run). cbv beta iota.
  rewrite decide_False by done.
  erewrite bind_ok by (apply parse_choice_ok; [exact Hc2 | lia]). cbv beta iota.
  erewrite bind_ok.
  2:{ apply fmap_ok. unfold nth_pick. rewrite Hp. reflexivity. }
  cbv beta iota.
  erewrite bind_ok by (apply execute_select_calm; calm_solve). cbv beta iota.
  rewrite Hs.
  erewrite bind_ok by (by apply get_valid_non_negative_integer_input_run).
  cbv beta iota.
  erewrite bind_ok by (apply fmap_ok; reflexivity). cbv beta iota.
  erewrite bind_ok by (apply execute_select_calm; calm_solve). cbv beta iota.
  unfold Sql.select_bprice. rewrite Hbk. done.
Qed.

Lemma update_of_sale_without_book_raises_witness :
  let c := mkConn (mkDB (member seeded) ∅
                     [mkSale 1 "2024-01-15" "M001" "B001" 2 100 1100] 1) None in
  let r := update_sale_record Plain.int Plain.strip (mkWorld c ["1"; "0"] [] []) in
  r.1 = Raise TypeError ∧ conn r.2 = c ∧ stdin r.2 = [].
Proof.
  apply (update_of_sale_without_book_raises Plain.int Plain.strip
           (mkConn (mkDB (member seeded) ∅
                      [mkSale 1 "2024-01-15" "M001" "B001" 2 100 1100] 1) None)
           "1" "0" [] [] [] 1 0
           (Sql.mkPick 1 "Alice" "2024-01-15")
           (mkSale 1 "2024-01-15" "M001" "B001" 2 100 1100)).
  - constructor.
  - lia.
  - reflexivity.
  - reflexivity.
  - reflexivity.
  - discriminate.
  - reflexivity.
  - discriminate.
  - reflexivity.
  - lia.
Defined.

(** ** Operations one after the other *)





(** ** What the menu operations can commit *)



(** X19.  Whatever is typed and whichever sqlite3 calls fail,
    [delete_sale_record] started with nothing pending ends with nothing
    pending and has committed either nothing or the deletion of one sale of
    the list shown.  Members, books and the key counter are as before (so a
    deletion gives no stock back), and the sales left are sales of before,
    unchanged and in their order. *)
Theorem delete_sale_record_removes_listed_sales_only
    (py_int : string → option Z) (py_strip : string → string) (w : World) :
  idle (conn w) →
  let db := disk (conn w) in
  let r := delete_sale_record py_int py_strip w in
  let db' := disk (conn r.2) in
  idle (conn r.2) ∧
  (db' = db ∨
   ∃ p, p ∈ Sql.select_picks db ∧ db' = Sql.delete_sale (Sql.p_sid p) db) ∧
  member db' = member db ∧ book db' = book db ∧ sale_seq db' = sale_seq db ∧
  sale db' `sublist_of` sale db.
Proof.
  intros Hidle db r db'.
  destruct (leads_delete_sale_record_removed py_int py_strip (conn w) Hidle w eq_refl)
    as [Hi Hcases].
  fold r in Hi, Hcases. fold db db' in Hcases.
  split; [done|].
  destruct Hcases as [Heq|(p & Hp & Heq)].
  - split; [by left|]. by rewrite Heq.
  - split; [right; by exists p|]. rewrite Heq. cbn.
    split; [done|]. split; [done|]. split; [done|]. apply sublist_filter.
Qed.

Lemma delete_sale_record_removes_listed_sales_only_witness :
  let w := quiet_world seeded ["2"] in
  let db := disk (conn w) in
  let r := delete_sale_record Plain.int Plain.strip w in
  let db' := disk (conn r.2) in
  idle (conn r.2) ∧
  (db' = db ∨
   ∃ p, p ∈ Sql.select_picks db ∧ db' = Sql.delete_sale (Sql.p_sid p) db) ∧
  member db' = member db ∧ book db' = book db ∧ sale_seq db' = sale_seq db ∧
  sale db' `sublist_of` sale db.
Proof.
  apply (delete_sale_record_removes_listed_sales_only Plain.int Plain.strip
           (quiet_world seeded ["2"])).
  reflexivity.
Defined.

(** X20.  The total of a sale follows the price: if every sale of the store
    has as total the price of its book times its quantity less its
    discount, and no two sales share a key, then the same holds after
    [add_sale], [add_new_sale], [update_sale_record] and
    [delete_sale_record], whatever is typed and whichever sqlite3 calls
    fail. *)
Theorem operations_keep_totals_priced
    (py_int : string → option Z) (py_strip : string → string)
    (re_fullmatch : string → string → bool) (w : World) :
  idle (conn w) → keyed (disk (conn w)) → priced (disk (conn w)) →
  (∀ sdate m b q disc,
     priced (disk (conn (add_sale sdate m b q disc w).2))) ∧
  priced (disk (conn (add_new_sale py_int re_fullmatch w).2)) ∧
  priced (disk (conn (update_sale_record py_int py_strip w).2)) ∧
  priced (disk (conn (delete_sale_record py_int py_strip w).2)).
Proof.
  intros Hidle Hk Hp. split; [|split; [|split]].
  - intros sdate m b q disc.
    destruct (leads_add_sale_sold (conn w) sdate m b q disc Hidle w eq_refl)
      as [_ [->|(bk & _ & Hb & _ & ->)]]; [done|].
    by apply priced_sale_writes.
  - destruct (leads_add_new_sale_checked py_int re_fullmatch (conn w) Hidle w eq_refl)
      as [_ [->|(sdate & m & b & q & disc & _ & _ & _ & bk & _ & Hb & _ & ->)]];
      [done|].
    by apply priced_sale_writes.
  - destruct (leads_update_sale_record_repriced py_int py_strip (conn w) Hidle w eq_refl)
      as [_ [->|(p & s & bk & nd & _ & Hs & Hb & _ & ->)]]; [done|].
    by apply priced_update_sale.
  - destruct (leads_delete_sale_record_removed py_int py_strip (conn w) Hidle w eq_refl)
      as [_ [->|(p & _ & ->)]]; [done|].
    by apply priced_delete_sale.
Qed.

Lemma operations_keep_totals_priced_witness :
  let w := quiet_world seeded ["2"; "30"] in
  (∀ sdate m b q disc,
     priced (disk (conn (add_sale sdate m b q disc w).2))) ∧
  priced (disk (conn (add_new_sale Plain.int Plain.fullmatch w).2)) ∧
  priced (disk (conn (update_sale_record Plain.int Plain.strip w).2)) ∧
  priced (disk (conn (delete_sale_record Plain.int Plain.strip w).2)).
Proof.
  apply (operations_keep_totals_priced Plain.int Plain.strip Plain.fullmatch
           (quiet_world seeded ["2"; "30"])).
  - reflexivity.
  - apply (bool_decide_unpack (keyed seeded)). vm_compute. reflexivity.
  - apply (bool_decide_unpack (priced seeded)). vm_compute. reflexivity.
Defined.

(** ** The menu *)

(** X21.  Started on a database whose calls do not fail, with lines typed
    that are none of the options, then a blank line or 5: [main] sets the
    store up, skips the lines that are no option, says goodbye and returns.
    What it leaves committed is the store set up and nothing else, nothing
    is pending, and of the lines typed those after the leaving one are
    not read. *)
Theorem main_skips_unknown_options_until_exit
    (py_int : string → option Z) (py_strip : string → string)
    (re_fullmatch : string → string → bool)
    (w : World) (bad : list string) (choice : string) (rest : list string) :
  calm w →
  stdin w = bad ++ choice :: rest →
  Forall (λ l, py_strip l ∉ [""; "1"; "2"; "3"; "4"; "5"]) bad →
  py_strip choice ∈ [""; "5"] →
  let r := main py_int py_strip re_fullmatch w in
  r.1 = Ok tt ∧
  conn r.2 = mkConn (bootstrap (disk (conn w))) None ∧
  stdin r.2 = rest ∧
  last (stdout r.2) = Some (Line msg_goodbye).
Proof.
  intros Hw Hin Hbad Hc r. subst r. unfold main, connect_db, close.
  destruct w as [c i o fs]. cbn [stdin conn] in *. subst i.
  erewrite bind_ok by reflexivity.
  set (w1 := set_conn _ _).
  destruct (initialize_db_run w1 Hw) as (Hres & Hconn & Hin & Hout & Hcalm).
  destruct (initialize_db w1) as [res [c2 i2 o2 fs2]] eqn:Hinit.
  cbn [fst snd conn stdin stdout] in Hres, Hconn, Hin, Hout. subst res c2 i2 o2.
  erewrite bind_ok by exact Hinit.
  destruct (loop_menu_round_skips py_int py_strip re_fullmatch
              (mkConn (bootstrap (view (conn w1))) None) bad choice rest
              (stdout w1) fs2 Hbad Hc) as [o' Ho'].
  erewrite bind_ok by exact Ho'.
  cbn. split; [done|]. split; [done|]. split; [done|].
  by rewrite !app_assoc, last_snoc.
Qed.

Lemma main_skips_unknown_options_until_exit_witness :
  let w := quiet_world empty_db ["9"; "help"; " 5 "; "1"] in
  let r := main Plain.int Plain.strip Plain.fullmatch w in
  r.1 = Ok tt ∧
  conn r.2 = mkConn (bootstrap (disk (conn w))) None ∧
  stdin r.2 = ["1"] ∧
  last (stdout r.2) = Some (Line msg_goodbye).
Proof.
  apply (main_skips_unknown_options_until_exit Plain.int Plain.strip Plain.fullmatch
           (quiet_world empty_db ["9"; "help"; " 5 "; "1"])
           ["9"; "help"] " 5 " ["1"]).
  - constructor.
  - reflexivity.
  - apply (bool_decide_unpack (Forall _ _)). vm_compute. reflexivity.
  - apply (bool_decide_unpack (_ ∈ _)). vm_compute. reflexivity.
Defined.

(** X22.  The queries of the menu operations are outside every [try]: a
    failure of the query that lists the sales makes [print_sale_report],
    [update_sale_record] and [delete_sale_record] raise the sqlite3 error
    to their caller, with nothing printed and nothing read; and in
    [update_sale_record], after a valid choice, so does a failure of the
    query for the chosen sale, before the discount is asked, and after a
    valid discount a failure of the query for the price.  In each case the
    connection is as before. *)
Theorem query_failure_is_not_caught
    (py_int : string → option Z) (py_strip : string → string)
    (c : Conn) (choice answer : string) (rest : list string) (o : list Out)
    (fs : list bool) (idx nd : Z) (p : Sql.Pick) (s : Sale) :
  let db := view c in
  1 ≤ idx → Sql.select_picks db !! Z.to_nat (idx - 1) = Some p →
  Sql.select_sale (Sql.p_sid p) db = Some s →
  py_strip choice ≠ "" → py_int (py_strip choice) = Some idx →
  answer ≠ "" → py_int answer = Some nd → 0 ≤ nd →
  let i := choice :: answer :: rest in
  let update fs0 := update_sale_record py_int py_strip (mkWorld c i o fs0) in
  print_sale_report (mkWorld c i o (true :: fs))
    = (Raise SqliteError, mkWorld c i o fs) ∧
  delete_sale_record py_int py_strip (mkWorld c i o (true :: fs))
    = (Raise SqliteError, mkWorld c i o fs) ∧
  update (true :: fs) = (Raise SqliteError, mkWorld c i o fs) ∧
  (let r := update (false :: true :: fs) in
   r.1 = Raise SqliteError ∧ conn r.2 = c ∧ stdin r.2 = answer :: rest ∧
   faults r.2 = fs) ∧
  (let r := update (false :: false :: true :: fs) in
   r.1 = Raise SqliteError ∧ conn r.2 = c ∧ stdin r.2 = rest ∧ faults r.2 = fs).
Proof.
  intros db Hidx Hp Hs Hc1 Hc2 Ha1 Ha2 Hnd i update.
  split; [done|]. split; [done|]. split; [done|].
  pose proof (lookup_lt_Some _ _ _ Hp) as Hlen.
  assert (∀ fs0, ∃ out,
            update (false :: fs0)
            = (sale ← execute_select (Sql.select_sale (Sql.p_sid p));
               new_discount ← get_valid_non_negative_integer_input py_int
                                "請輸入新的折扣金額：";
               match new_discount with
               | None => mret tt
               | Some new_discount =>
                   sale_bid ← bid <$> subscript sale;
                   row ← execute_select (Sql.select_bprice sale_bid);
                   price ← subscript row;
                   sale_sqty ← sqty <$> subscript sale;
                   update_txn new_discount (price * sale_sqty - new_discount)
                              (Sql.p_sid p)
               end) (mkWorld c (answer :: rest) out fs0)) as Hstart.
  { intros fs0. subst update. cbv beta. unfold update_sale_record.
    erewrite bind_ok by reflexivity. cbn [conn]. fold db. cbv beta iota.
    destruct (Sql.select_picks db) as [|p0 picks] eqn:Hpicks; [done|].
    destruct (print_picks_run (p0 :: picks) c i o fs0) as [out Hout].
    erewrite bind_ok by exact Hout. cbv beta iota.
    erewrite bind_ok by (apply fmap_ok, input_run). cbv beta iota.
    rewrite decide_False by done.
    erewrite bind_ok by (apply parse_choice_ok; [exact Hc2 | lia]).
    cbv beta iota.
    erewrite bind_ok.
    2:{ apply fmap_ok. unfold nth_pick. rewrite Hp. reflexivity. }
    by eexists. }
  split.
  - destruct (Hstart (true :: fs)) as [out ->]. done.
  - destruct (Hstart (false :: true :: fs)) as [out ->].
    erewrite bind_ok by reflexivity. cbn [conn]. fold db. rewrite Hs.
    erewrite bind_ok by (by apply get_valid_non_negative_integer_input_run).
    cbv beta iota.
    erewrite bind_ok by (apply fmap_ok; reflexivity). cbv beta iota.
    done.
Qed.

Lemma query_failure_is_not_caught_witness :
  let c := mkConn seeded None in
  let i := ["2"; "30"] in
  let update fs0 :=
    update_sale_record Plain.int Plain.strip (mkWorld c i [] fs0) in
  print_sale_report (mkWorld c i [] [true])
    = (Raise SqliteError, mkWorld c i [] []) ∧
  delete_sale_record Plain.int Plain.strip (mkWorld c i [] [true])
    = (Raise SqliteError, mkWorld c i [] []) ∧
  update [true] = (Raise SqliteError, mkWorld c i [] []) ∧
  (let r := update [false; true] in
   r.1 = Raise SqliteError ∧ conn r.2 = c ∧ stdin r.2 = ["30"] ∧ faults r.2 = []) ∧
  (let r := update [false; false; true] in
   r.1 = Raise SqliteError ∧ conn r.2 = c ∧ stdin r.2 = [] ∧ faults r.2 = []).
Proof.
  apply (query_failure_is_not_caught Plain.int Plain.strip (mkConn seeded None)
           "2" "30" [] [] [] 2 30
           (Sql.mkPick 2 "Bob" "2024-01-16")
           (mkSale 2 "2024-01-16" "M002" "B002" 1 50 750)).
  - lia.
  - vm_compute. reflexivity.
  - vm_compute. reflexivity.
  - vm_compute. discriminate.
  - vm_compute. reflexivity.
  - discriminate.
  - vm_compute. reflexivity.
  - lia.
Defined.

(** X23.  [main] returns only by the leaving option: whenever a run of
    [main] returns, whatever was typed before, the last line it printed is
    the goodbye and the connection was closed with nothing pending. *)
Theorem main_returns_only_after_goodbye
    (py_int : string → option Z) (py_strip : string → string)
    (re_fullmatch : string → string → bool) (w : World) :
  let r := main py_int py_strip re_fullmatch w in
  r.1 = Ok tt →
  last (stdout r.2) = Some (Line msg_goodbye) ∧ idle (conn r.2).
Proof.
  intros r. subst r. unfold main, connect_db, close, mbind, M_bind.
  destruct (update_conn _ w) as [[[]|e|] w1]; [|done..].
  destruct (initialize_db w1) as [[[]|e|] w2]; [|done..].
  destruct (loop (menu_round py_int py_strip re_fullmatch) w2) as [[[]|e|] w3] eqn:Hl;
    [|done..].
  intros _. split; [|done].
  unfold loop in Hl.
  apply (while_true_result _ (λ _ w', last (stdout w') = Some (Line msg_goodbye))) in Hl;
    [exact Hl|].
  intros w4 [] w5. apply menu_round_leaves.
Qed.

Lemma main_returns_only_after_goodbye_witness :
  let r := main Plain.int Plain.strip Plain.fullmatch
             (quiet_world empty_db ["2"; "7"; ""]) in
  last (stdout r.2) = Some (Line msg_goodbye) ∧ idle (conn r.2).
Proof.
  apply (main_returns_only_after_goodbye Plain.int Plain.strip Plain.fullmatch
           (quiet_world empty_db ["2"; "7"; ""])).
  vm_compute. reflexivity.
Defined.
